(** * Silk container decoding and PCM wrapping

    A shallow embedding of [decode.go] (package [silk]): header validation
    ([checkHeader]), the block loop of [Decode], the wrappers around the
    dynamically loaded decoder library, the RIFF/WAVE writer [pcmToWav] and
    the top-level [SilkToWav].

    Conventions.
    - A byte is [Init.Byte.byte]; a byte slice is a [list byte].
    - Go's [int] is taken as the 64-bit signed integer of the amd64 port,
      [int16] as the 16-bit signed integer; both are carried by [Z] with the
      wrap-around written out.
    - The source [io.Reader] is an in-memory byte sequence: reads deliver the
      remaining bytes in order and report [io.EOF] at the end.  What
      [bufio.Reader], [io.ReadFull] and [binary.Read] do on top of such a
      source is written out below.
    - The decoder library is an explicit capability [Dll]; every call made
      through it is recorded in a trace. *)

From Stdlib Require Import String Strings.Byte.
From Stdlib Require Import ZArith List Lia Bool.
From coqutil Require Import Byte Word.LittleEndianList.
Import ListNotations.
Local Open Scope Z_scope.

(** ** Constants of the package *)

Definition STX : byte := Byte.x02.
Definition Header : string := "#!SILK_V3".
Definition HeaderLen : nat := String.length Header.
Definition FRAME_LENGTH_MS : Z := 20.
Definition MAX_API_FS_KHZ : Z := 48.

Definition HeaderBytes : list byte := list_byte_of_string Header.

(** ** Go integers *)

Module GoInt.

(** Two's complement reading of the low [w] bits. *)
Definition swrap (w : Z) (z : Z) : Z := (z + 2 ^ (w - 1)) mod 2 ^ w - 2 ^ (w - 1).

Definition int16 (z : Z) : Z := swrap 16 z.
Definition int (z : Z) : Z := swrap 64 z.

Definition add (a b : Z) : Z := int (a + b).
Definition mul (a b : Z) : Z := int (a * b).
(** Go's [/] truncates toward zero. *)
Definition div (a b : Z) : Z := int (Z.quot a b).

(** [byte(x)]: conversion of an integer to [uint8] keeps the low 8 bits. *)
Definition to_byte (x : Z) : byte := byte.of_Z x.

End GoInt.

(** ** Errors, panics and outcomes *)

(** The two sentinel errors an in-memory source can make the [io] helpers
    report. *)
Inductive ioerr : Type :=
| EOF
| ErrUnexpectedEOF.

(** An error reported by the decoder library (a failed [FindProc] or a
    [Call] whose status is not success); opaque to this package. *)
Inductive dllerr : Type :=
| DllErr (code : Z).

(** The errors [Decode] and [checkHeader] build with [fmt.Errorf], one
    constructor per message. *)
Inductive error : Type :=
| ErrPeekFirst (cause : ioerr)          (* failed to peek first byte *)
| ErrReadFirst (cause : ioerr)          (* failed to read first byte *)
| ErrInvalidFirst (stx : byte)          (* invalid first byte *)
| ErrReadHeader (cause : ioerr)         (* failed to read file header *)
| ErrHeaderLength (n : nat)             (* invalid file header, length= *)
| ErrHeaderMismatch (got : list byte)   (* invalid file header, got= *)
| ErrReadBlockSize (cause : ioerr)      (* failed to read block size *)
| ErrReadBlock (cause : ioerr)          (* failed to read block *)
| ErrInvalidBlock                       (* invalid block *)
| ErrDll (cause : dllerr).              (* propagated unchanged *)

(** Run-time panics of the Go code. *)
Inductive panic : Type :=
| IndexOutOfRange (index : Z) (len : Z)
| SliceBoundsOutOfRange (bound : Z) (capacity : Z).

Inductive outcome (A : Type) : Type :=
| Ok (a : A)
| Err (e : error)
| Panic (p : panic).
Arguments Ok {A} a.
Arguments Err {A} e.
Arguments Panic {A} p.

(** The errors of header validation (bad or missing magic, unexpected
    marker byte, truncated header). *)
Definition is_format_error (e : error) : bool :=
  match e with
  | ErrPeekFirst _ | ErrReadFirst _ | ErrInvalidFirst _
  | ErrReadHeader _ | ErrHeaderLength _ | ErrHeaderMismatch _ => true
  | _ => false
  end.

(** The error of a short read of a declared block payload. *)
Definition is_stream_corruption (e : error) : bool :=
  match e with
  | ErrReadBlock _ | ErrInvalidBlock => true
  | _ => false
  end.

(** ** The reader *)

(** What is left of the source. *)
Definition Reader : Type := list byte.

Fixpoint bytes_eqb (a b : list byte) : bool :=
  match a, b with
  | [], [] => true
  | x :: a', y :: b' => Byte.eqb x y && bytes_eqb a' b'
  | _, _ => false
  end.

(** [bufio.Reader.Peek(n)]: the next [n] bytes without consuming them; with
    fewer than [n] left, what is left and the source's error. *)
Definition Peek (n : nat) (r : Reader) : list byte * option ioerr :=
  (firstn n r, if (length r <? n)%nat then Some EOF else None).

(** [bufio.Reader.ReadByte]. *)
Definition ReadByte (r : Reader) : (byte * option ioerr) * Reader :=
  match r with
  | [] => ((Byte.x00, Some EOF), [])
  | b :: r' => ((b, None), r')
  end.

(** [io.ReadFull(reader, buf)] with [len(buf) = n]: the bytes stored in
    [buf] (their number is the count Go returns) and the error.  An empty
    [buf] reads nothing and succeeds; no byte at all is [io.EOF]; some but
    not all is [io.ErrUnexpectedEOF]. *)
Definition ReadFull (r : Reader) (n : nat) : (list byte * option ioerr) * Reader :=
  match n with
  | O => (([], None), r)
  | S _ =>
      match r with
      | [] => (([], Some EOF), [])
      | _ :: _ =>
          if (length r <? n)%nat then ((r, Some ErrUnexpectedEOF), [])
          else ((firstn n r, None), skipn n r)
      end
  end.

(** [binary.Read(reader, binary.LittleEndian, &nByte)] for an [int16]:
    [io.ReadFull] of two bytes, then the little-endian value. *)
Definition binaryReadInt16 (r : Reader) : (Z * option ioerr) * Reader :=
  match ReadFull r 2 with
  | ((bs, None), r') => ((GoInt.int16 (le_combine bs), None), r')
  | ((_, Some e), r') => ((0, Some e), r')
  end.

(** The value of a block-length field: two bytes, little-endian, signed. *)
Definition lengthField (b0 b1 : byte) : Z := GoInt.int16 (le_combine [b0; b1]).

(** ** checkHeader *)

(** The second half of [checkHeader]: the nine bytes of the magic. *)
Definition readMagic (reader : Reader) : option error * Reader :=
  let '((header, err), reader) := ReadFull reader HeaderLen in
  match err with
  | Some e => (Some (ErrReadHeader e), reader)
  | None =>
      let n := length header in
      if negb (n =? HeaderLen)%nat then (Some (ErrHeaderLength n), reader)
      else if negb (bytes_eqb header HeaderBytes)
           then (Some (ErrHeaderMismatch header), reader)
           else (None, reader)
  end.

Definition checkHeader (reader : Reader) : option error * Reader :=
  let '(first, err) := Peek 1 reader in
  match err with
  | Some e => (Some (ErrPeekFirst e), reader)
  | None =>
      if Byte.eqb (nth 0 first Byte.x00) STX then
        let '((stx, err), reader) := ReadByte reader in
        match err with
        | Some e => (Some (ErrReadFirst e), reader)
        | None =>
            if negb (Byte.eqb stx STX) then (Some (ErrInvalidFirst stx), reader)
            else readMagic reader
        end
      else readMagic reader
  end.

(** ** The decoder library *)

(** The exported procedures of [dllsilk.dll] as this package uses them.
    [L] is the library's own state.  [FindProc] looks a procedure up by
    name ([None]: found).  Each [Call_X] is the method [Call] of
    the procedure [X]; its error component is [None] when Go's [err] is [nil] or
    [SEVERITY_SUCCESS].  [Call_Decode handle inData inDataLength outData
    outDataLength] gives the bytes the library stored from [&outData[0]] on
    and the value it left in [outDataLength]. *)
Record Dll (L : Type) : Type := {
  FindProc : string -> option dllerr;
  Call_CreateDecoder : L -> (Z * option dllerr) * L;
  Call_CloseDecoder : Z -> L -> option dllerr * L;
  Call_setSampleRate : Z -> Z -> L -> option dllerr * L;
  Call_setFramesPerPacket : Z -> Z -> L -> option dllerr * L;
  Call_Decode :
    Z -> list byte -> Z -> list byte -> Z -> L ->
    ((list byte * Z) * option dllerr) * L
}.
Arguments FindProc {L} _ _.
Arguments Call_CreateDecoder {L} _ _.
Arguments Call_CloseDecoder {L} _ _ _.
Arguments Call_setSampleRate {L} _ _ _ _.
Arguments Call_setFramesPerPacket {L} _ _ _ _.
Arguments Call_Decode {L} _ _ _ _ _ _ _.

(** The calls made on the library, in order. *)
Inductive event : Type :=
| CallCreateDecoder (handle : Z)
| CallCloseDecoder (handle : Z)
| CallSetSampleRate (handle sample : Z)
| CallSetFramesPerPacket (handle perPacket : Z)
| CallDecode (handle : Z) (inData : list byte) (inDataLength : Z).

Record world (L : Type) : Type := {
  lib : L;
  trace : list event
}.
Arguments lib {L} _.
Arguments trace {L} _.
Arguments Build_world {L} _ _.

(** A call: the library moves to its next state and the event is logged. *)
Definition called {L : Type} (w : world L) (l : L) (e : event) : world L :=
  {| lib := l; trace := trace w ++ [e] |}.

(** The world with nothing logged yet, and the world reached from [w] by a
    run that, started with nothing logged, ends in [w']. *)
Definition erase {L : Type} (w : world L) : world L :=
  {| lib := lib w; trace := [] |}.

Definition after {L : Type} (w w' : world L) : world L :=
  {| lib := lib w'; trace := trace w ++ trace w' |}.

Definition is_decode_call (handle : Z) (e : event) : bool :=
  match e with
  | CallDecode h _ _ => h =? handle
  | _ => false
  end.

Definition is_close_call (e : event) : bool :=
  match e with
  | CallCloseDecoder _ => true
  | _ => false
  end.

(** The calls one run of [Decode] can have made when it returns: none, or
    the session created, then configured with sample rate 16000, then with
    one frame per packet, then blocks decoded on that session. *)
Inductive session_trace : list event -> Prop :=
| session_none : session_trace []
| session_created (h : Z) : session_trace [CallCreateDecoder h]
| session_rate (h : Z) :
    session_trace [CallCreateDecoder h; CallSetSampleRate h 16000]
| session_configured (h : Z) (evs : list event) :
    forallb (is_decode_call h) evs = true ->
    session_trace
      (CallCreateDecoder h :: CallSetSampleRate h 16000
         :: CallSetFramesPerPacket h 1 :: evs).

(** Computations over the world that return, fail or panic. *)
Definition M (L A : Type) : Type := world L -> outcome A * world L.

(** Writing [src] over the front of a buffer, never past its end. *)
Definition overwrite (buf src : list byte) : list byte :=
  firstn (length buf) (src ++ skipn (length src) buf).

(** The slice expression [b[:hi]] of a slice whose capacity is its length. *)
Definition slice_to (b : list byte) (hi : Z) : panic + list byte :=
  if (hi <? 0) || (Z.of_nat (length b) <? hi)
  then inl (SliceBoundsOutOfRange hi (Z.of_nat (length b)))
  else inr (firstn (Z.to_nat hi) b).

(** The state of one pass of the [for] loop of [Decode]: what is left of
    the reader, the two scratch buffers [in] and [buf], the accumulated
    output and the world. *)
Record lstate (L : Type) : Type := {
  reader : Reader;
  inb : list byte;
  buf : list byte;
  out : list byte;
  wld : world L
}.
Arguments reader {L} _.
Arguments inb {L} _.
Arguments buf {L} _.
Arguments out {L} _.
Arguments wld {L} _.
Arguments Build_lstate {L} _ _ _ _ _.

Definition with_wld {L : Type} (s : lstate L) (w : world L) : lstate L :=
  {| reader := reader s; inb := inb s; buf := buf s; out := out s; wld := w |}.

Section Silk.

Context {L : Type}.
Variable dll : Dll L.

Definition createDecoder : M L Z := fun w =>
  match FindProc dll "CreateDecoder" with
  | Some e => (Err (ErrDll e), w)
  | None =>
      let '((handle, err), l) := Call_CreateDecoder dll (lib w) in
      let w := called w l (CallCreateDecoder handle) in
      match err with
      | Some e => (Err (ErrDll e), w)
      | None => (Ok handle, w)
      end
  end.

Definition closeDecoder (handle : Z) : M L unit := fun w =>
  match FindProc dll "CloseDecoder" with
  | Some e => (Err (ErrDll e), w)
  | None =>
      let '(err, l) := Call_CloseDecoder dll handle (lib w) in
      let w := called w l (CallCloseDecoder handle) in
      match err with
      | Some e => (Err (ErrDll e), w)
      | None => (Ok tt, w)
      end
  end.

Definition setSampleRate (handle sample : Z) : M L unit := fun w =>
  match FindProc dll "setSampleRate" with
  | Some e => (Err (ErrDll e), w)
  | None =>
      let '(err, l) := Call_setSampleRate dll handle sample (lib w) in
      let w := called w l (CallSetSampleRate handle sample) in
      match err with
      | Some e => (Err (ErrDll e), w)
      | None => (Ok tt, w)
      end
  end.

Definition setFramesPerPacket (handle perPacket : Z) : M L unit := fun w =>
  match FindProc dll "setFramesPerPacket" with
  | Some e => (Err (ErrDll e), w)
  | None =>
      let '(err, l) := Call_setFramesPerPacket dll handle perPacket (lib w) in
      let w := called w l (CallSetFramesPerPacket handle perPacket) in
      match err with
      | Some e => (Err (ErrDll e), w)
      | None => (Ok tt, w)
      end
  end.

(** [decode]: the returned pair is the Go result [int(outDataLength * 2)]
    and the contents of [outData] after the call (the library writes
    through the pointer to its first element).  Taking the address of
    [inData[0]] panics on an empty slice. *)
Definition decode (handle : Z) (inData : list byte) (inDataLength : Z)
    (outData : list byte) (outDataLength : Z) : M L (Z * list byte) := fun w =>
  match FindProc dll "Decode" with
  | Some e => (Err (ErrDll e), w)
  | None =>
      match inData, outData with
      | [], _ => (Panic (IndexOutOfRange 0 0), w)
      | _ :: _, [] => (Panic (IndexOutOfRange 0 0), w)
      | _ :: _, _ :: _ =>
          let '(((written, count), err), l) :=
            Call_Decode dll handle inData inDataLength outData outDataLength (lib w) in
          let w := called w l (CallDecode handle inData inDataLength) in
          let outData := overwrite outData written in
          let outDataLength := GoInt.int16 count in
          match err with
          | Some e => (Err (ErrDll e), w)
          | None => (Ok (GoInt.int (GoInt.int16 (outDataLength * 2)), outData), w)
          end
      end
  end.

(** The end of the loop body (lines 147-154): the block [inData] is handed
    to [decode], and [buf[:length]] is appended to the output. *)
Definition decodeAndAppend (handle : Z) (s : lstate L) (inData : list byte)
    (n nByte : Z) (reader inb : list byte)
  : lstate L + (outcome (list byte) * world L) :=
  match decode handle inData n (buf s) nByte (wld s) with
  | (Ok (length, buf), w) =>
      match slice_to buf length with
      | inl p => inr (Panic p, w)
      | inr frame =>
          inl {| reader := reader; inb := inb; buf := buf;
                 out := out s ++ frame; wld := w |}
      end
  | (Err e, w) => inr (Err e, w)
  | (Panic p, w) => inr (Panic p, w)
  end.

(** One pass of the body of the [for] loop: [inl] is the state at the next
    pass, [inr] what [Decode] returns when the loop is left.  The counter
    [blockIndex] is incremented and never read; it is left out.  The two
    slices [in[:nByte]] and [in[:n]] are in bounds by construction. *)
Definition step (handle : Z) (s : lstate L) : lstate L + (outcome (list byte) * world L) :=
  let '((nByte, err), reader) := binaryReadInt16 (reader s) in
  match err with
  | Some EOF => inr (Ok (out s), wld s)
  | Some e => inr (Err (ErrReadBlockSize e), wld s)
  | None =>
      if nByte <? 0 then inr (Ok (out s), wld s)
      else
        let inb :=
          if Z.of_nat (length (inb s)) <? nByte
          then repeat Byte.x00 (Z.to_nat nByte) else inb s in
        let '((data, err), reader) := ReadFull reader (Z.to_nat nByte) in
        let inb := overwrite inb data in
        let n := Z.of_nat (length data) in
        match err with
        | Some EOF => inr (Ok (out s), wld s)
        | Some e => inr (Err (ErrReadBlock e), wld s)
        | None =>
            if negb (n =? nByte) then inr (Err ErrInvalidBlock, wld s)
            else decodeAndAppend handle s (firstn (Z.to_nat n) inb) n nByte reader inb
        end
  end.

(** The scratch buffer [in] after a block of [n] bytes was read into it. *)
Definition inbAfter (s : lstate L) (n : Z) (data : list byte) : list byte :=
  overwrite (if Z.of_nat (length (inb s)) <? n
             then repeat Byte.x00 (Z.to_nat n) else inb s) data.

(** The [for] loop, by passes; [None] only when the passes allowed run
    out. *)
Fixpoint loop (fuel : nat) (handle : Z) (s : lstate L)
  : option (outcome (list byte) * world L) :=
  match fuel with
  | O => None
  | S fuel =>
      match step handle s with
      | inl s' => loop fuel handle s'
      | inr r => Some r
      end
  end.

Definition frameSize : Z := Z.shiftl (FRAME_LENGTH_MS * MAX_API_FS_KHZ) 1.

Definition andThen {A B : Type} (c : M L A)
    (k : A -> world L -> option (outcome B * world L))
  : world L -> option (outcome B * world L) := fun w =>
  match c w with
  | (Ok a, w) => k a w
  | (Err e, w) => Some (Err e, w)
  | (Panic p, w) => Some (Panic p, w)
  end.

(** The state in which [Decode] enters the loop: [in] of 1024 bytes, [buf]
    of [frameSize * 2] bytes, nothing accumulated. *)
Definition entry (reader : Reader) (w : world L) : lstate L :=
  let inb := repeat Byte.x00 1024 in
  let buf := repeat Byte.x00 (Z.to_nat (frameSize * 2)) in
  {| reader := reader; inb := inb; buf := buf; out := []; wld := w |}.

Definition Decode (src : Reader) : world L -> option (outcome (list byte) * world L) :=
  let reader := src in
  match checkHeader reader with
  | (Some err, _) => fun w => Some (Err err, w)
  | (None, reader) =>
      andThen createDecoder (fun handle =>
      andThen (setSampleRate handle 16000) (fun _ =>
      andThen (setFramesPerPacket handle 1) (fun _ w =>
        loop (S (length reader)) handle (entry reader w))))
  end.

(** [reach handle s s']: the loop entered in [s] is in [s'] some passes
    later. *)
Inductive reach (handle : Z) : lstate L -> lstate L -> Prop :=
| reach_here (s : lstate L) : reach handle s s
| reach_pass (s s1 s' : lstate L) :
    step handle s = inl s1 -> reach handle s1 s' -> reach handle s s'.

(** [during src w handle s]: [Decode], run on [src] from [w], has
    validated the header, created and configured the session [handle],
    and is at the head of its loop in state [s]. *)
Definition during (src : Reader) (w : world L) (handle : Z) (s : lstate L) : Prop :=
  exists rd w1 w2 w3 u1 u2,
    checkHeader src = (None, rd) /\
    createDecoder w = (Ok handle, w1) /\
    setSampleRate handle 16000 w1 = (Ok u1, w2) /\
    setFramesPerPacket handle 1 w2 = (Ok u2, w3) /\
    reach handle (entry rd w3) s.

(** The sample count the library reports for a call of its [Decode]: the
    [int16] it leaves in [outDataLength]. *)
Definition reportedCount (handle : Z) (inData : list byte) (inDataLength : Z)
    (outData : list byte) (outDataLength : Z) (l : L) : Z :=
  GoInt.int16
    (snd (fst (fst (Call_Decode dll handle inData inDataLength outData outDataLength l)))).

End Silk.

(** The three reading situations in which the loop of [Decode] is left by a
    [break]: the source is exhausted before the length field, the length
    field is negative (whatever follows it), or a positive length is
    followed by no byte at all. *)
Inductive clean_end : Reader -> Prop :=
| end_before_length : clean_end []
| negative_length (b0 b1 : byte) (rest : list byte) :
    lengthField b0 b1 < 0 -> clean_end (b0 :: b1 :: rest)
| end_before_payload (b0 b1 : byte) :
    0 < lengthField b0 b1 -> clean_end [b0; b1].

(** ** pcmToWav *)

(** The assignment [header[i] = v]; every index used below is a constant
    inside the 44 bytes. *)
Definition store (header : list byte) (i : nat) (v : byte) : list byte :=
  firstn i header ++ v :: skipn (S i) header.

Definition byteRate_of (saplerate numchannel : Z) : Z :=
  GoInt.div (GoInt.mul (GoInt.mul 16 saplerate) numchannel) 8.

Definition pcmToWav (dst : list byte) (numchannel saplerate : Z) : list byte :=
  let b := GoInt.to_byte in
  let byteDst := dst in
  let longSampleRate := saplerate in
  let byteRate := byteRate_of saplerate numchannel in
  let totalAudioLen := Z.of_nat (length byteDst) in
  let totalDataLen := GoInt.add totalAudioLen 36 in
  let header := repeat Byte.x00 44 in
  let header := store header 0 "R"%byte in
  let header := store header 1 "I"%byte in
  let header := store header 2 "F"%byte in
  let header := store header 3 "F"%byte in
  let header := store header 4 (b (Z.land totalDataLen 255)) in
  let header := store header 5 (b (Z.land (Z.shiftr totalDataLen 8) 255)) in
  let header := store header 6 (b (Z.land (Z.shiftr totalDataLen 16) 255)) in
  let header := store header 7 (b (Z.land (Z.shiftr totalDataLen 24) 255)) in
  let header := store header 8 "W"%byte in
  let header := store header 9 "A"%byte in
  let header := store header 10 "V"%byte in
  let header := store header 11 "E"%byte in
  let header := store header 12 "f"%byte in
  let header := store header 13 "m"%byte in
  let header := store header 14 "t"%byte in
  let header := store header 15 " "%byte in
  let header := store header 16 (b 16) in
  let header := store header 17 (b 0) in
  let header := store header 18 (b 0) in
  let header := store header 19 (b 0) in
  let header := store header 20 (b 1) in
  let header := store header 21 (b 0) in
  let header := store header 22 (b numchannel) in
  let header := store header 23 (b 0) in
  let header := store header 24 (b (Z.land longSampleRate 255)) in
  let header := store header 25 (b (Z.land (Z.shiftr longSampleRate 8) 255)) in
  let header := store header 26 (b (Z.land (Z.shiftr longSampleRate 16) 255)) in
  let header := store header 27 (b (Z.land (Z.shiftr longSampleRate 24) 255)) in
  let header := store header 28 (b (Z.land byteRate 255)) in
  let header := store header 29 (b (Z.land (Z.shiftr byteRate 8) 255)) in
  let header := store header 30 (b (Z.land (Z.shiftr byteRate 16) 255)) in
  let header := store header 31 (b (Z.land (Z.shiftr byteRate 24) 255)) in
  let header := store header 32 (b (GoInt.div (GoInt.mul 2 16) 8)) in
  let header := store header 33 (b 0) in
  let header := store header 34 (b 16) in
  let header := store header 35 (b 0) in
  let header := store header 36 "d"%byte in
  let header := store header 37 "a"%byte in
  let header := store header 38 "t"%byte in
  let header := store header 39 "a"%byte in
  let header := store header 40 (b (Z.land totalAudioLen 255)) in
  let header := store header 41 (b (Z.land (Z.shiftr totalAudioLen 8) 255)) in
  let header := store header 42 (b (Z.land (Z.shiftr totalAudioLen 16) 255)) in
  let header := store header 43 (b (Z.land (Z.shiftr totalAudioLen 24) 255)) in
  let headerDst := header in
  headerDst ++ dst.

(** ** SilkToWav *)

(** [NewSilkDecoder] loads the library; the model starts from the loaded
    library [dll] in its state [lib w].  A load that fails is not reported
    by [NewSilkDecoder] and leaves [s.dll] nil; such a run is outside the
    model, and what is proved below is about runs with a loaded library. *)
Definition SilkToWav {L : Type} (dll : Dll L) (src : Reader)
  : world L -> option (outcome (list byte) * world L) := fun w =>
  match Decode dll src w with
  | Some (Ok data, w) => Some (Ok (pcmToWav data 2 16000), w)
  | Some (Err e, w) => Some (Err e, w)
  | Some (Panic p, w) => Some (Panic p, w)
  | None => None
  end.

(** ** Notions used to state the properties *)

(** [c] logs without reading the log: run from [w], it does what it does
    from [erase w], and its events come after those of [w]. *)
Definition write_only {L A : Type} (c : M L A) : Prop :=
  forall w, c w = (fst (c (erase w)), after w (snd (c (erase w)))).

(** The result of a pass, seen from a world with [w] already logged. *)
Definition after_pass {L : Type} (w : world L)
    (r : lstate L + (outcome (list byte) * world L))
  : lstate L + (outcome (list byte) * world L) :=
  match r with
  | inl s' => inl (with_wld s' (after w (wld s')))
  | inr (o, w') => inr (o, after w w')
  end.

(** The result of a run, seen from a world with [w] already logged. *)
Definition after_run {L : Type} (w : world L) (r : option (outcome (list byte) * world L))
  : option (outcome (list byte) * world L) :=
  match r with
  | Some (o, w') => Some (o, after w w')
  | None => None
  end.

(** The 44 bytes of the header, field by field. *)
Definition wavHeader (totalAudioLen numchannel saplerate : Z) : list byte :=
  list_byte_of_string "RIFF" ++ le_split 4 (totalAudioLen + 36)
    ++ list_byte_of_string "WAVE" ++ list_byte_of_string "fmt "
    ++ le_split 4 16 ++ le_split 2 1
    ++ [byte.of_Z numchannel; Byte.x00]
    ++ le_split 4 saplerate
    ++ le_split 4 (byteRate_of saplerate numchannel)
    ++ le_split 2 4 ++ le_split 2 16
    ++ list_byte_of_string "data" ++ le_split 4 totalAudioLen.

(** The part of a stream [checkHeader] reads the magic from: the stream
    without its first byte when that byte is the marker. *)
Definition afterMarker (r : Reader) : Reader :=
  match r with
  | [] => []
  | b :: r' => if Byte.eqb b STX then r' else r
  end.

(** A block as the loop of [Decode] reads it: the length of the payload in
    two bytes, little-endian, then the payload. *)
Definition frameBlock (payload : list byte) : list byte :=
  le_split 2 (Z.of_nat (length payload)) ++ payload.

Definition frameBlocks (payloads : list (list byte)) : list byte :=
  concat (map frameBlock payloads).

(** A payload the loop can be handed: not empty, and of a length an [int16]
    holds. *)
Definition payload_ok (payload : list byte) : Prop :=
  payload <> [] /\ Z.of_nat (length payload) <= 32767.

(** A library whose [Decode] is found, never fails, and reports between 0
    and 1920 samples for every block. *)
Definition decodes_ok {L : Type} (dll : Dll L) : Prop :=
  FindProc dll "Decode" = None /\
  forall handle inData inDataLength outData outDataLength l,
    snd (fst (Call_Decode dll handle inData inDataLength outData outDataLength l)) = None /\
    0 <= reportedCount dll handle inData inDataLength outData outDataLength l <= 1920.

(** The state [s] with [extra] appended to what is left of its reader. *)
Definition with_more {L : Type} (s : lstate L) (extra : list byte) : lstate L :=
  {| reader := reader s ++ extra; inb := inb s; buf := buf s; out := out s;
     wld := wld s |}.

(** How a wrapper of a library call can fail: with the library's error,
    never with a panic. *)
Definition dll_failure {A : Type} (r : outcome A) : Prop :=
  match r with
  | Ok _ => True
  | Err e => exists d, e = ErrDll d
  | Panic _ => False
  end.

(** What the library may rely on for a call: its [Decode] is handed a slice
    that is not empty, of at most 32767 bytes, with its exact length. *)
Definition call_ok (e : event) : Prop :=
  match e with
  | CallDecode _ inData inDataLength =>
      inData <> [] /\ inDataLength = Z.of_nat (length inData) /\ inDataLength <= 32767
  | _ => True
  end.

(** Two libraries, each with its own kind of state, behave the same from
    states related by [R]: the same procedures are found, and each call the
    conversion can make returns the same results in both and leads to
    related states. *)
Definition same_behaviour {L1 L2 : Type} (dll1 : Dll L1) (dll2 : Dll L2)
    (R : L1 -> L2 -> Prop) : Prop :=
  (forall name, FindProc dll1 name = FindProc dll2 name) /\
  (forall l1 l2, R l1 l2 ->
     fst (Call_CreateDecoder dll1 l1) = fst (Call_CreateDecoder dll2 l2) /\
     R (snd (Call_CreateDecoder dll1 l1)) (snd (Call_CreateDecoder dll2 l2))) /\
  (forall h v l1 l2, R l1 l2 ->
     fst (Call_setSampleRate dll1 h v l1) = fst (Call_setSampleRate dll2 h v l2) /\
     R (snd (Call_setSampleRate dll1 h v l1)) (snd (Call_setSampleRate dll2 h v l2))) /\
  (forall h v l1 l2, R l1 l2 ->
     fst (Call_setFramesPerPacket dll1 h v l1)
       = fst (Call_setFramesPerPacket dll2 h v l2) /\
     R (snd (Call_setFramesPerPacket dll1 h v l1))
       (snd (Call_setFramesPerPacket dll2 h v l2))) /\
  (forall h i n o nb l1 l2, R l1 l2 ->
     fst (Call_Decode dll1 h i n o nb l1) = fst (Call_Decode dll2 h i n o nb l2) /\
     R (snd (Call_Decode dll1 h i n o nb l1)) (snd (Call_Decode dll2 h i n o nb l2))).

(** Worlds with related library states and the same calls logged; loop
    states that differ at most in such worlds. *)
Definition same_world {L1 L2 : Type} (R : L1 -> L2 -> Prop)
    (w1 : world L1) (w2 : world L2) : Prop :=
  R (lib w1) (lib w2) /\ trace w1 = trace w2.

Definition same_state {L1 L2 : Type} (R : L1 -> L2 -> Prop)
    (s1 : lstate L1) (s2 : lstate L2) : Prop :=
  reader s1 = reader s2 /\ inb s1 = inb s2 /\ buf s1 = buf s2 /\
  out s1 = out s2 /\ same_world R (wld s1) (wld s2).

(** Related passes: both go on to related states, or both leave the loop
    with the same result in related worlds.  Related runs likewise. *)
Definition same_pass {L1 L2 : Type} (R : L1 -> L2 -> Prop)
    (p1 : lstate L1 + (outcome (list byte) * world L1))
    (p2 : lstate L2 + (outcome (list byte) * world L2)) : Prop :=
  match p1, p2 with
  | inl a, inl b => same_state R a b
  | inr (r1, wa), inr (r2, wb) => r1 = r2 /\ same_world R wa wb
  | _, _ => False
  end.

Definition same_run {L1 L2 : Type} (R : L1 -> L2 -> Prop)
    (p1 : option (outcome (list byte) * world L1))
    (p2 : option (outcome (list byte) * world L2)) : Prop :=
  match p1, p2 with
  | Some (r1, wa), Some (r2, wb) => r1 = r2 /\ same_world R wa wb
  | None, None => True
  | _, _ => False
  end.

(** ** A stand-in library for concrete runs *)

(** Creates handle 7, accepts every setting, and decodes every block to
    [samples] samples whose bytes are all [0xAB]. *)
Definition stubDll (samples : Z) : Dll unit := {|
  FindProc := fun _ => None;
  Call_CreateDecoder := fun l => ((7, None), l);
  Call_CloseDecoder := fun _ l => (None, l);
  Call_setSampleRate := fun _ _ l => (None, l);
  Call_setFramesPerPacket := fun _ _ l => (None, l);
  Call_Decode := fun _ _ _ _ _ l =>
    ((repeat Byte.xab (Z.to_nat (2 * samples)), samples, None), l)
|}.

(** As [stubDll], but its [Decode] fails with the error [code]. *)
Definition failingDll (code : Z) : Dll unit := {|
  FindProc := fun _ => None;
  Call_CreateDecoder := fun l => ((7, None), l);
  Call_CloseDecoder := fun _ l => (None, l);
  Call_setSampleRate := fun _ _ l => (None, l);
  Call_setFramesPerPacket := fun _ _ l => (None, l);
  Call_Decode := fun _ _ _ _ _ l => (([], 0, Some (DllErr code)), l)
|}.

(** As [stubDll], with a state that keeps the sample rate and the frames
    per packet last set. *)
Definition recordingDll (samples : Z) : Dll (Z * Z) := {|
  FindProc := fun _ => None;
  Call_CreateDecoder := fun l => ((7, None), l);
  Call_CloseDecoder := fun _ l => (None, l);
  Call_setSampleRate := fun _ sample l => (None, (sample, snd l));
  Call_setFramesPerPacket := fun _ perPacket l => (None, (fst l, perPacket));
  Call_Decode := fun _ _ _ _ _ l =>
    ((repeat Byte.xab (Z.to_nat (2 * samples)), samples, None), l)
|}.

Definition w0 : world unit := {| lib := tt; trace := [] |}.

(** A block of four payload bytes, and the footer: a length field of -1. *)
Definition block4 : list byte :=
  [Byte.x04; Byte.x00; Byte.x01; Byte.x02; Byte.x03; Byte.x04].
Definition footer : list byte := [Byte.xff; Byte.xff].

(** * Properties *)

(** ** Go integers *)

Module GoIntFacts.
Import GoInt.

Lemma pow2_double w : 0 < w -> 2 ^ w = 2 * 2 ^ (w - 1).
Proof.
  intros Hw. replace w with (Z.succ (w - 1)) at 1 by lia.
  apply Z.pow_succ_r. lia.
Qed.

Lemma swrap_range w z : 0 < w -> - 2 ^ (w - 1) <= swrap w z < 2 ^ (w - 1).
Proof.
  intros Hw. unfold swrap.
  pose proof (pow2_double w Hw) as E.
  assert (0 < 2 ^ (w - 1)) by (apply Z.pow_pos_nonneg; lia).
  pose proof (Z.mod_pos_bound (z + 2 ^ (w - 1)) (2 ^ w)). lia.
Qed.

Lemma swrap_small w z :
  0 < w -> - 2 ^ (w - 1) <= z < 2 ^ (w - 1) -> swrap w z = z.
Proof.
  intros Hw Hz. unfold swrap.
  pose proof (pow2_double w Hw) as E.
  rewrite Z.mod_small by lia. lia.
Qed.

(** Wrapping keeps the low [w] bits. *)
Lemma swrap_mod w z : 0 < w -> swrap w z mod 2 ^ w = z mod 2 ^ w.
Proof.
  intros Hw. unfold swrap.
  pose proof (pow2_double w Hw) as E.
  assert (0 < 2 ^ (w - 1)) by (apply Z.pow_pos_nonneg; lia).
  rewrite Zminus_mod, Zmod_mod, <- Zminus_mod.
  replace (z + 2 ^ (w - 1) - 2 ^ (w - 1)) with z by lia.
  reflexivity.
Qed.

Lemma int16_range z : - 32768 <= int16 z <= 32767.
Proof.
  pose proof (swrap_range 16 z eq_refl) as H. unfold int16.
  change (2 ^ (16 - 1)) with 32768 in H. lia.
Qed.

Lemma int16_small z : - 32768 <= z <= 32767 -> int16 z = z.
Proof.
  intros. unfold int16. apply swrap_small; [lia|].
  change (2 ^ (16 - 1)) with 32768. lia.
Qed.

Lemma int_small z : - 2 ^ 63 <= z < 2 ^ 63 -> int z = z.
Proof.
  intros. unfold int. apply swrap_small; [lia|].
  change (64 - 1) with 63. lia.
Qed.

(** Doubling in [int16]: the three ranges of the operand. *)
Lemma int16_double c :
  - 32768 <= c <= 32767 ->
  int16 (c * 2) =
    if c <? - 16384 then c * 2 + 65536
    else if c <? 16384 then c * 2
    else c * 2 - 65536.
Proof.
  intros Hc. unfold int16, swrap.
  change (2 ^ (16 - 1)) with 32768. change (2 ^ 16) with 65536.
  destruct (Z.ltb_spec c (-16384)); [|destruct (Z.ltb_spec c 16384)].
  - replace (c * 2 + 32768) with ((c * 2 + 32768 + 65536) + (-1) * 65536) by lia.
    rewrite Z_mod_plus_full, Z.mod_small by lia. lia.
  - rewrite Z.mod_small by lia. lia.
  - replace (c * 2 + 32768) with ((c * 2 + 32768 - 65536) + 1 * 65536) by lia.
    rewrite Z_mod_plus_full, Z.mod_small by lia. lia.
Qed.

End GoIntFacts.

(** ** Bytes and the reader *)

Lemma bytes_eqb_eq (a b : list byte) : bytes_eqb a b = true <-> a = b.
Proof.
  revert b. induction a as [|x a IH]; intros [|y b]; simpl;
    try (split; (discriminate || reflexivity)).
  rewrite andb_true_iff, IH. split.
  - intros [Hx ->]. apply Byte.byte_dec_bl in Hx. now subst.
  - intros [= -> ->]. split; [now apply Byte.byte_dec_lb | reflexivity].
Qed.

Lemma bytes_eqb_neq (a b : list byte) : bytes_eqb a b = false <-> a <> b.
Proof.
  rewrite <- bytes_eqb_eq. destruct (bytes_eqb a b); split; congruence.
Qed.

Lemma HeaderBytes_length : length HeaderBytes = HeaderLen.
Proof. reflexivity. Qed.

Lemma firstn_app_len {A : Type} (a b : list A) : firstn (length a) (a ++ b) = a.
Proof. induction a as [|x a IH]; simpl; [now destruct b | now rewrite IH]. Qed.

Lemma skipn_app_len {A : Type} (a b : list A) : skipn (length a) (a ++ b) = b.
Proof. induction a as [|x a IH]; simpl; [reflexivity | exact IH]. Qed.

Lemma ReadFull_enough (r : Reader) (n : nat) :
  (n <= length r)%nat -> ReadFull r n = ((firstn n r, None), skipn n r).
Proof.
  intros Hn. unfold ReadFull. destruct n as [|n]; [reflexivity|].
  destruct r as [|b r]; [simpl in Hn; lia|].
  destruct (Nat.ltb_spec (length (b :: r)) (S n)); [lia | reflexivity].
Qed.

Lemma ReadFull_app (a rest : list byte) :
  ReadFull (a ++ rest) (length a) = ((a, None), rest).
Proof.
  rewrite ReadFull_enough by (rewrite length_app; lia).
  now rewrite firstn_app_len, skipn_app_len.
Qed.

Lemma ReadFull_short (r : Reader) (n : nat) :
  (0 < length r < n)%nat -> ReadFull r n = ((r, Some ErrUnexpectedEOF), []).
Proof.
  intros Hn. unfold ReadFull. destruct n as [|n]; [lia|].
  destruct r as [|b r]; [simpl in Hn; lia|].
  destruct (Nat.ltb_spec (length (b :: r)) (S n)); [reflexivity | lia].
Qed.

Lemma ReadFull_nothing (n : nat) :
  (0 < n)%nat -> ReadFull [] n = (([], Some EOF), []).
Proof. intros Hn. destruct n; [lia | reflexivity]. Qed.

(** A successful [ReadFull] delivers exactly the bytes asked for. *)
Lemma ReadFull_ok (r r' : Reader) (n : nat) (data : list byte) :
  ReadFull r n = ((data, None), r') ->
  r = data ++ r' /\ length data = n.
Proof.
  unfold ReadFull. destruct n as [|n].
  - intros [= <- <-]. now split.
  - destruct r as [|b r]; [discriminate|].
    destruct (Nat.ltb_spec (length (b :: r)) (S n)) as [|Hle]; [discriminate|].
    intros [= <- <-]. split.
    + symmetry. exact (firstn_skipn (S n) (b :: r)).
    + exact (firstn_length_le (b :: r) Hle).
Qed.

(** ** checkHeader *)

Lemma checkHeader_unfold (r : Reader) :
  checkHeader r =
    match r with
    | [] => (Some (ErrPeekFirst EOF), [])
    | b :: r' => if Byte.eqb b STX then readMagic r' else readMagic r
    end.
Proof.
  destruct r as [|b r']; [reflexivity|].
  unfold checkHeader, readMagic. cbn [Peek firstn length Nat.ltb Nat.leb nth ReadByte].
  destruct (Byte.eqb b STX) eqn:E; [|reflexivity].
  cbn [negb]. reflexivity.
Qed.

Lemma checkHeader_stx (r : Reader) : checkHeader (STX :: r) = readMagic r.
Proof. rewrite checkHeader_unfold. reflexivity. Qed.

Lemma readMagic_ok (rest : list byte) : readMagic (HeaderBytes ++ rest) = (None, rest).
Proof.
  unfold readMagic. rewrite <- HeaderBytes_length, ReadFull_app.
  rewrite Nat.eqb_refl. cbn [negb].
  now rewrite (proj2 (bytes_eqb_eq HeaderBytes HeaderBytes) eq_refl).
Qed.

Lemma readMagic_inv (r r' : Reader) : readMagic r = (None, r') -> r = HeaderBytes ++ r'.
Proof.
  unfold readMagic. destruct (ReadFull r HeaderLen) as [[header [e|]] rd] eqn:E;
    [discriminate|].
  apply ReadFull_ok in E. destruct E as [-> Hlen].
  destruct (negb (length header =? HeaderLen)%nat); [discriminate|].
  destruct (bytes_eqb header HeaderBytes) eqn:Hb; [|discriminate].
  apply bytes_eqb_eq in Hb. intros [= <-]. now subst.
Qed.

(** Anything but the magic in the first nine bytes is refused. *)
Lemma readMagic_fail (r : Reader) :
  firstn HeaderLen r <> HeaderBytes ->
  exists e, fst (readMagic r) = Some e /\ is_format_error e = true.
Proof.
  intros Hne. unfold readMagic.
  destruct (ReadFull r HeaderLen) as [[header [e|]] rd] eqn:E.
  - eexists. split; reflexivity.
  - apply ReadFull_ok in E. destruct E as [-> Hlen].
    rewrite Hlen, Nat.eqb_refl. cbn [negb].
    rewrite <- Hlen, firstn_app_len in Hne.
    apply bytes_eqb_neq in Hne. rewrite Hne. cbn [negb].
    eexists. split; reflexivity.
Qed.

Lemma has_magic_split (b : list byte) :
  firstn HeaderLen b = HeaderBytes -> b = HeaderBytes ++ skipn HeaderLen b.
Proof. intros H. rewrite <- H. symmetry. apply firstn_skipn. Qed.

Lemma checkHeader_magic (rest : list byte) :
  checkHeader (HeaderBytes ++ rest) = (None, rest).
Proof.
  rewrite checkHeader_unfold.
  change (HeaderBytes ++ rest) with ("#"%byte :: (tl HeaderBytes ++ rest)) at 1.
  cbv beta iota. change (Byte.eqb "#"%byte STX) with false. cbv iota.
  apply readMagic_ok.
Qed.

Lemma checkHeader_stx_magic (rest : list byte) :
  checkHeader (STX :: HeaderBytes ++ rest) = (None, rest).
Proof. rewrite checkHeader_stx. apply readMagic_ok. Qed.

(** Header validation succeeds on exactly two shapes of stream. *)
Lemma checkHeader_ok_inv (r r' : Reader) :
  checkHeader r = (None, r') ->
  r = HeaderBytes ++ r' \/ r = STX :: HeaderBytes ++ r'.
Proof.
  rewrite checkHeader_unfold. destruct r as [|b r0]; [discriminate|].
  destruct (Byte.eqb b STX) eqn:E.
  - apply Byte.byte_dec_bl in E. subst b. intros H%readMagic_inv.
    right. now rewrite H.
  - intros H%readMagic_inv. now left.
Qed.

Lemma checkHeader_fail (r : Reader) :
  hd_error r <> Some STX ->
  firstn HeaderLen r <> HeaderBytes ->
  exists e, fst (checkHeader r) = Some e /\ is_format_error e = true.
Proof.
  intros Hhd Hne. rewrite checkHeader_unfold. destruct r as [|b r0].
  - eexists. split; reflexivity.
  - destruct (Byte.eqb b STX) eqn:E.
    + apply Byte.byte_dec_bl in E. subst b. now elim Hhd.
    + now apply readMagic_fail.
Qed.

(** ** The length field *)

Lemma binaryReadInt16_nil : binaryReadInt16 [] = ((0, Some EOF), []).
Proof. reflexivity. Qed.

Lemma binaryReadInt16_one (b : byte) :
  binaryReadInt16 [b] = ((0, Some ErrUnexpectedEOF), []).
Proof. reflexivity. Qed.

Lemma binaryReadInt16_two (b0 b1 : byte) (rest : list byte) :
  binaryReadInt16 (b0 :: b1 :: rest) = ((lengthField b0 b1, None), rest).
Proof. reflexivity. Qed.

Lemma lengthField_range (b0 b1 : byte) : - 32768 <= lengthField b0 b1 <= 32767.
Proof. apply GoIntFacts.int16_range. Qed.

(** ** One pass of the loop *)

Lemma length_overwrite (buf src : list byte) : length (overwrite buf src) = length buf.
Proof.
  unfold overwrite. rewrite length_firstn, length_app, length_skipn. lia.
Qed.

Lemma firstn_overwrite (buf src : list byte) :
  (length src <= length buf)%nat -> firstn (length src) (overwrite buf src) = src.
Proof.
  intros H. unfold overwrite. rewrite firstn_firstn.
  replace (Nat.min (length src) (length buf)) with (length src) by lia.
  apply firstn_app_len.
Qed.

Lemma slice_to_ok (b frame : list byte) (hi : Z) :
  slice_to b hi = inr frame <->
  0 <= hi <= Z.of_nat (length b) /\ frame = firstn (Z.to_nat hi) b.
Proof.
  unfold slice_to.
  destruct (Z.ltb_spec hi 0); destruct (Z.ltb_spec (Z.of_nat (length b)) hi);
    cbn [orb]; split; try discriminate; try lia.
  - intros [= <-]. split; [lia | reflexivity].
  - intros [_ ->]. reflexivity.
Qed.

Lemma slice_to_length (b frame : list byte) (hi : Z) :
  slice_to b hi = inr frame -> Z.of_nat (length frame) = hi.
Proof.
  intros [Hr ->]%slice_to_ok. rewrite firstn_length_le; lia.
Qed.

Lemma slice_to_panic (b : list byte) (hi : Z) (p : panic) :
  slice_to b hi = inl p <->
  (hi < 0 \/ Z.of_nat (length b) < hi) /\
  p = SliceBoundsOutOfRange hi (Z.of_nat (length b)).
Proof.
  unfold slice_to.
  destruct (Z.ltb_spec hi 0); destruct (Z.ltb_spec (Z.of_nat (length b)) hi);
    cbn [orb]; split; try discriminate; try lia;
    try (intros [= <-]; split; [lia | reflexivity]);
    try (intros [_ ->]; reflexivity).
Qed.

Section StepFacts.

Context {L : Type}.
Variable dll : Dll L.
Variable handle : Z.

Lemma step_eq (s : lstate L) :
  step dll handle s =
    match reader s with
    | [] => inr (Ok (out s), wld s)
    | [_] => inr (Err (ErrReadBlockSize ErrUnexpectedEOF), wld s)
    | b0 :: b1 :: rest =>
        let n := lengthField b0 b1 in
        if n <? 0 then inr (Ok (out s), wld s)
        else if n =? 0 then decodeAndAppend dll handle s [] 0 0 rest (inbAfter s 0 [])
        else match rest with
             | [] => inr (Ok (out s), wld s)
             | _ :: _ =>
                 if Z.of_nat (length rest) <? n
                 then inr (Err (ErrReadBlock ErrUnexpectedEOF), wld s)
                 else let data := firstn (Z.to_nat n) rest in
                      decodeAndAppend dll handle s data n n
                        (skipn (Z.to_nat n) rest) (inbAfter s n data)
             end
    end.
Proof.
  unfold step. destruct (reader s) as [|b0 [|b1 rest]]; try reflexivity.
  rewrite binaryReadInt16_two. cbv zeta.
  set (n := lengthField b0 b1).
  destruct (Z.ltb_spec n 0) as [|Hn0]; [reflexivity|].
  destruct (Z.eqb_spec n 0) as [Hz|Hnz].
  - rewrite Hz. cbn [Z.to_nat ReadFull length Z.of_nat Z.eqb negb firstn].
    reflexivity.
  - destruct rest as [|r0 rest'].
    + rewrite ReadFull_nothing by lia. reflexivity.
    + set (rest := r0 :: rest').
      destruct (Z.ltb_spec (Z.of_nat (length rest)) n) as [Hlt|Hge].
      * rewrite ReadFull_short by (subst rest; simpl in *; lia). reflexivity.
      * rewrite ReadFull_enough by lia.
        assert (Hlen : length (firstn (Z.to_nat n) rest) = Z.to_nat n)
          by (apply firstn_length_le; lia).
        rewrite Hlen, Z2Nat.id, Z.eqb_refl by lia. cbn [negb].
        unfold decodeAndAppend, inbAfter.
        rewrite <- Hlen at 1. rewrite firstn_overwrite; [reflexivity|].
        rewrite Hlen. destruct (Z.ltb_spec (Z.of_nat (length (inb s))) n).
        -- rewrite repeat_length. lia.
        -- lia.
Qed.

Lemma decodeAndAppend_not_ok (s : lstate L) (n nByte : Z)
    (data rest inb' : list byte) (o : list byte) (w : world L) :
  decodeAndAppend dll handle s data n nByte rest inb' <> inr (Ok o, w).
Proof.
  unfold decodeAndAppend.
  destruct (decode dll handle data n (buf s) nByte (wld s)) as [[[len buf']| |] w1];
    try discriminate.
  destruct (slice_to buf' len); discriminate.
Qed.

Lemma decodeAndAppend_inl (s s' : lstate L) (n nByte : Z)
    (data rest inb' : list byte) :
  decodeAndAppend dll handle s data n nByte rest inb' = inl s' ->
  exists len frame,
    decode dll handle data n (buf s) nByte (wld s) = (Ok (len, buf s'), wld s') /\
    slice_to (buf s') len = inr frame /\
    reader s' = rest /\ inb s' = inb' /\ out s' = out s ++ frame.
Proof.
  unfold decodeAndAppend.
  destruct (decode dll handle data n (buf s) nByte (wld s)) as [[[len buf']| |] w1];
    try discriminate.
  destruct (slice_to buf' len) as [|frame] eqn:E; [discriminate|].
  intros [= <-]. cbn. now exists len, frame.
Qed.

(** [decode] refuses an empty block before the library is called. *)
Lemma decode_empty (n : Z) (outData : list byte) (nByte : Z) (w : world L) :
  decode dll handle [] n outData nByte w =
    match FindProc dll "Decode" with
    | Some e => (Err (ErrDll e), w)
    | None => (Panic (IndexOutOfRange 0 0), w)
    end.
Proof. unfold decode. now destruct (FindProc dll "Decode"). Qed.

Lemma decode_ok_inv (inData : list byte) (n : Z) (outData : list byte) (nByte : Z)
    (w w' : world L) (len : Z) (buf' : list byte) :
  decode dll handle inData n outData nByte w = (Ok (len, buf'), w') ->
  inData <> [] /\
  len = GoInt.int16 (reportedCount dll handle inData n outData nByte (lib w) * 2) /\
  length buf' = length outData /\
  trace w' = trace w ++ [CallDecode handle inData n].
Proof.
  unfold decode, reportedCount.
  destruct (FindProc dll "Decode"); [discriminate|].
  destruct inData as [|i0 inData]; [discriminate|].
  destruct outData as [|o0 outData]; [discriminate|].
  destruct (Call_Decode dll handle (i0 :: inData) n (o0 :: outData) nByte (lib w))
    as [[[written count] [e|]] l]; [discriminate|].
  intros [= <- <- <-]. cbn [fst snd].
  repeat split.
  - discriminate.
  - apply GoIntFacts.int_small.
    pose proof (GoIntFacts.int16_range (GoInt.int16 count * 2)). lia.
  - apply length_overwrite.
Qed.

(** A pass that goes on has read a whole, non-empty block, and appended to
    the output the front of [buf] that [decode] asked for. *)
Lemma step_inl_inv (s s' : lstate L) :
  step dll handle s = inl s' ->
  exists b0 b1 rest len frame,
    let n := lengthField b0 b1 in
    reader s = b0 :: b1 :: rest /\
    0 < n <= Z.of_nat (length rest) /\
    reader s' = skipn (Z.to_nat n) rest /\
    decode dll handle (firstn (Z.to_nat n) rest) n (buf s) n (wld s)
      = (Ok (len, buf s'), wld s') /\
    slice_to (buf s') len = inr frame /\
    out s' = out s ++ frame.
Proof.
  rewrite step_eq. destruct (reader s) as [|b0 [|b1 rest]]; try discriminate.
  cbv zeta. destruct (Z.ltb_spec (lengthField b0 b1) 0) as [|Hn0]; [discriminate|].
  destruct (Z.eqb_spec (lengthField b0 b1) 0) as [Hz|Hnz].
  - intros Hi. apply decodeAndAppend_inl in Hi.
    destruct Hi as (len & frame & Hd & _). rewrite decode_empty in Hd.
    destruct (FindProc dll "Decode"); discriminate.
  - destruct rest as [|r0 rest']; [discriminate|].
    destruct (Z.ltb_spec (Z.of_nat (length (r0 :: rest'))) (lengthField b0 b1))
      as [|Hge]; [discriminate|].
    intros Hi. apply decodeAndAppend_inl in Hi.
    destruct Hi as (len & frame & Hd & Hs & Hr & _ & Ho).
    exists b0, b1, (r0 :: rest'), len, frame. cbv zeta.
    repeat split; try assumption; lia.
Qed.

Lemma step_consumes (s s' : lstate L) :
  step dll handle s = inl s' -> (length (reader s') < length (reader s))%nat.
Proof.
  intros H. apply step_inl_inv in H.
  destruct H as (b0 & b1 & rest & len & frame & Hr & Hn & Hr' & _).
  rewrite Hr, Hr', length_skipn. simpl. lia.
Qed.

(** The loop is left without error in the situations of [clean_end], and
    in no other. *)
Lemma step_ok_iff (s : lstate L) (o : list byte) (w : world L) :
  step dll handle s = inr (Ok o, w) <->
  clean_end (reader s) /\ o = out s /\ w = wld s.
Proof.
  rewrite step_eq. split.
  - destruct (reader s) as [|b0 [|b1 rest]].
    + intros [= <- <-]. split; [constructor | now split].
    + discriminate.
    + cbv zeta. destruct (Z.ltb_spec (lengthField b0 b1) 0) as [Hneg|Hpos].
      * intros [= <- <-]. split; [now apply negative_length | now split].
      * destruct (Z.eqb_spec (lengthField b0 b1) 0) as [Hz|Hnz].
        { intros Ho. now apply decodeAndAppend_not_ok in Ho. }
        destruct rest as [|r0 rest'].
        { intros [= <- <-]. split; [apply end_before_payload; lia | now split]. }
        destruct (Z.ltb_spec (Z.of_nat (length (r0 :: rest'))) (lengthField b0 b1));
          [discriminate|].
        intros Ho. now apply decodeAndAppend_not_ok in Ho.
  - intros (Hc & -> & ->). destruct Hc as [|b0 b1 rest Hneg|b0 b1 Hpos].
    + reflexivity.
    + cbv zeta. destruct (Z.ltb_spec (lengthField b0 b1) 0); [reflexivity | lia].
    + cbv zeta. destruct (Z.ltb_spec (lengthField b0 b1) 0); [lia|].
      destruct (Z.eqb_spec (lengthField b0 b1) 0); [lia | reflexivity].
Qed.

(** A length field followed by some, but not all, of its payload. *)
Lemma step_truncated (s : lstate L) (b0 b1 : byte) (rest : list byte) :
  reader s = b0 :: b1 :: rest ->
  0 < Z.of_nat (length rest) < lengthField b0 b1 ->
  step dll handle s = inr (Err (ErrReadBlock ErrUnexpectedEOF), wld s).
Proof.
  intros Hr Hn. rewrite step_eq, Hr. cbv zeta.
  destruct (Z.ltb_spec (lengthField b0 b1) 0); [lia|].
  destruct (Z.eqb_spec (lengthField b0 b1) 0); [lia|].
  destruct rest as [|r0 rest']; [simpl in Hn; lia|].
  destruct (Z.ltb_spec (Z.of_nat (length (r0 :: rest'))) (lengthField b0 b1));
    [reflexivity | lia].
Qed.

(** ** The loop *)

Lemma loop_more_fuel (f1 f2 : nat) (s : lstate L) (r : outcome (list byte) * world L) :
  loop dll f1 handle s = Some r -> (f1 <= f2)%nat -> loop dll f2 handle s = Some r.
Proof.
  revert f2 s. induction f1 as [|f1 IH]; intros f2 s; [discriminate|].
  intros H Hle. destruct f2 as [|f2]; [lia|].
  cbn [loop] in *. destruct (step dll handle s) as [s1|r1]; [|exact H].
  apply IH; [exact H | lia].
Qed.

(** With as many passes allowed as the reader has bytes left, and one more,
    the loop returns. *)
Lemma loop_returns (fuel : nat) (s : lstate L) :
  (length (reader s) < fuel)%nat -> exists r, loop dll fuel handle s = Some r.
Proof.
  revert s. induction fuel as [|fuel IH]; intros s Hf; [lia|].
  cbn [loop]. destruct (step dll handle s) as [s1|r1] eqn:E.
  - apply IH. apply step_consumes in E. lia.
  - now exists r1.
Qed.

Lemma reach_length (s s' : lstate L) :
  reach dll handle s s' -> (length (reader s') <= length (reader s))%nat.
Proof.
  induction 1 as [|s s1 s' Hs _ IH]; [lia|].
  apply step_consumes in Hs. lia.
Qed.

Lemma reach_trans (s1 s2 s3 : lstate L) :
  reach dll handle s1 s2 -> reach dll handle s2 s3 -> reach dll handle s1 s3.
Proof.
  induction 1 as [|s s1 s' Hs _ IH]; [trivial|].
  intros H. eapply reach_pass; [exact Hs | now apply IH].
Qed.

(** The loop returns what the pass that leaves it returns. *)
Lemma loop_spec (fuel : nat) (s : lstate L) (r : outcome (list byte) * world L) :
  (length (reader s) < fuel)%nat ->
  loop dll fuel handle s = Some r <->
  exists s', reach dll handle s s' /\ step dll handle s' = inr r.
Proof.
  intros Hf. split.
  - clear Hf. revert s. induction fuel as [|fuel IH]; intros s; [discriminate|].
    cbn [loop]. destruct (step dll handle s) as [s1|r1] eqn:E.
    + intros H. apply IH in H. destruct H as (s' & Hr & Hs).
      exists s'. split; [|exact Hs]. eapply reach_pass; eassumption.
    + intros [= <-]. exists s. split; [constructor | exact E].
  - intros (s' & Hr & Hs). revert fuel Hf.
    induction Hr as [s|s s1 s' Hs1 _ IH]; intros fuel Hf.
    + destruct fuel as [|fuel]; [lia|]. cbn [loop]. now rewrite Hs.
    + destruct fuel as [|fuel]; [lia|]. cbn [loop]. rewrite Hs1.
      apply IH; [exact Hs|]. apply step_consumes in Hs1. lia.
Qed.

End StepFacts.

(** ** The trace is write-only *)

Lemma after_erase {L : Type} (w : world L) : after w (erase w) = w.
Proof. destruct w as [l t]. unfold after, erase. cbn. now rewrite app_nil_r. Qed.

Lemma after_assoc {L : Type} (w w1 w2 : world L) :
  after w (after w1 w2) = after (after w w1) w2.
Proof. unfold after. cbn. now rewrite app_assoc. Qed.

Lemma erase_after {L : Type} (w w' : world L) : erase (after w w') = erase w'.
Proof. reflexivity. Qed.

Lemma after_called {L : Type} (w : world L) (l : L) (e : event) :
  after w (called (erase w) l e) = called w l e.
Proof. reflexivity. Qed.

Lemma erase_eq {L : Type} (w1 w2 : world L) : lib w1 = lib w2 -> erase w1 = erase w2.
Proof. unfold erase. now intros ->. Qed.

Section Frame.

Context {L : Type}.
Variable dll : Dll L.

Lemma createDecoder_write_only : write_only (createDecoder dll).
Proof.
  intros w. unfold createDecoder.
  destruct (FindProc dll "CreateDecoder"); cbn [fst snd];
    [now rewrite after_erase|].
  change (lib (erase w)) with (lib w).
  destruct (Call_CreateDecoder dll (lib w)) as [[h [e|]] l]; reflexivity.
Qed.

Lemma setSampleRate_write_only (h v : Z) : write_only (setSampleRate dll h v).
Proof.
  intros w. unfold setSampleRate.
  destruct (FindProc dll "setSampleRate"); cbn [fst snd];
    [now rewrite after_erase|].
  change (lib (erase w)) with (lib w).
  destruct (Call_setSampleRate dll h v (lib w)) as [[e|] l]; reflexivity.
Qed.

Lemma setFramesPerPacket_write_only (h v : Z) :
  write_only (setFramesPerPacket dll h v).
Proof.
  intros w. unfold setFramesPerPacket.
  destruct (FindProc dll "setFramesPerPacket"); cbn [fst snd];
    [now rewrite after_erase|].
  change (lib (erase w)) with (lib w).
  destruct (Call_setFramesPerPacket dll h v (lib w)) as [[e|] l]; reflexivity.
Qed.

Lemma closeDecoder_write_only (h : Z) : write_only (closeDecoder dll h).
Proof.
  intros w. unfold closeDecoder.
  destruct (FindProc dll "CloseDecoder"); cbn [fst snd];
    [now rewrite after_erase|].
  change (lib (erase w)) with (lib w).
  destruct (Call_CloseDecoder dll h (lib w)) as [[e|] l]; reflexivity.
Qed.

Lemma decode_write_only (h : Z) (inData : list byte) (n : Z)
    (outData : list byte) (nByte : Z) :
  write_only (decode dll h inData n outData nByte).
Proof.
  intros w. unfold decode.
  destruct (FindProc dll "Decode"); cbn [fst snd]; [now rewrite after_erase|].
  destruct inData as [|i0 inData]; cbn [fst snd]; [now rewrite after_erase|].
  destruct outData as [|o0 outData]; cbn [fst snd]; [now rewrite after_erase|].
  change (lib (erase w)) with (lib w).
  destruct (Call_Decode dll h (i0 :: inData) n (o0 :: outData) nByte (lib w))
    as [[[written count] [e|]] l]; reflexivity.
Qed.

Lemma step_write_only (h : Z) (s : lstate L) :
  step dll h s = after_pass (wld s) (step dll h (with_wld s (erase (wld s)))).
Proof.
  unfold step, decodeAndAppend. cbn [with_wld reader inb buf out wld].
  destruct (binaryReadInt16 (reader s)) as [[nByte [[|]|]] rd]; cbn [after_pass];
    try (now rewrite after_erase).
  destruct (nByte <? 0); cbn [after_pass]; [now rewrite after_erase|].
  destruct (ReadFull rd (Z.to_nat nByte)) as [[data [[|]|]] rd']; cbn [after_pass];
    try (now rewrite after_erase).
  destruct (negb (Z.of_nat (length data) =? nByte)); cbn [after_pass];
    [now rewrite after_erase|].
  rewrite decode_write_only.
  destruct (decode dll h _ _ (buf s) nByte (erase (wld s))) as [[[len buf']| |] w'];
    cbn [fst snd after_pass]; try reflexivity.
  destruct (slice_to buf' len); reflexivity.
Qed.

Lemma loop_write_only (fuel : nat) (h : Z) (s : lstate L) :
  loop dll fuel h s =
    after_run (wld s) (loop dll fuel h (with_wld s (erase (wld s)))).
Proof.
  revert s. induction fuel as [|fuel IH]; intros s; [reflexivity|].
  cbn [loop]. rewrite step_write_only.
  destruct (step dll h (with_wld s (erase (wld s)))) as [s1|[o w1]];
    cbn [after_pass after_run]; [|reflexivity].
  rewrite IH. rewrite (IH s1).
  cbn [with_wld reader inb buf out wld]. rewrite erase_after.
  change (with_wld s1 (erase (wld s1)))
    with {| reader := reader s1; inb := inb s1; buf := buf s1; out := out s1;
            wld := erase (wld s1) |}.
  destruct (loop dll fuel h _) as [[o w2]|]; cbn [after_run]; [|reflexivity].
  now rewrite after_assoc.
Qed.

Lemma andThen_write_only {A : Type} (c : M L A)
    (k : A -> world L -> option (outcome (list byte) * world L)) :
  write_only c ->
  (forall a w, k a w = after_run w (k a (erase w))) ->
  forall w, andThen c k w = after_run w (andThen c k (erase w)).
Proof.
  intros Hc Hk w. unfold andThen. rewrite Hc.
  destruct (c (erase w)) as [[a| |] w1]; cbn [fst snd after_run]; try reflexivity.
  rewrite Hk, (Hk a w1), erase_after.
  destruct (k a (erase w1)) as [[o w2]|]; cbn [after_run]; [|reflexivity].
  now rewrite after_assoc.
Qed.

Lemma Decode_write_only (src : Reader) (w : world L) :
  Decode dll src w = after_run w (Decode dll src (erase w)).
Proof.
  unfold Decode. destruct (checkHeader src) as [[e|] rd].
  - cbn [after_run]. now rewrite after_erase.
  - apply andThen_write_only; [apply createDecoder_write_only|].
    intros h. apply andThen_write_only; [apply setSampleRate_write_only|].
    intros _. apply andThen_write_only; [apply setFramesPerPacket_write_only|].
    intros _ w1. rewrite loop_write_only. reflexivity.
Qed.

Lemma SilkToWav_write_only (src : Reader) (w : world L) :
  SilkToWav dll src w = after_run w (SilkToWav dll src (erase w)).
Proof.
  unfold SilkToWav. rewrite Decode_write_only.
  destruct (Decode dll src (erase w)) as [[[data| |] w1]|]; reflexivity.
Qed.

End Frame.

(** ** The calls made by a run *)

Section TraceFacts.

Context {L : Type}.
Variable dll : Dll L.

Lemma decode_trace (h : Z) (inData : list byte) (n : Z) (outData : list byte)
    (nByte : Z) (w : world L) :
  let w' := snd (decode dll h inData n outData nByte w) in
  trace w' = trace w \/ trace w' = trace w ++ [CallDecode h inData n].
Proof.
  unfold decode. destruct (FindProc dll "Decode"); [now left|].
  destruct inData as [|i0 inData]; [now left|].
  destruct outData as [|o0 outData]; [now left|].
  destruct (Call_Decode dll h (i0 :: inData) n (o0 :: outData) nByte (lib w))
    as [[[written count] [e|]] l]; now right.
Qed.

(** A pass calls the library at most once, and only its [Decode]. *)
Lemma step_trace (h : Z) (s : lstate L) :
  exists evs,
    forallb (is_decode_call h) evs = true /\
    match step dll h s with
    | inl s' => trace (wld s') = trace (wld s) ++ evs
    | inr (_, w') => trace w' = trace (wld s) ++ evs
    end.
Proof.
  assert (Hnil : forall (w : world L), trace w = trace w ++ [])
    by (intros; now rewrite app_nil_r).
  unfold step, decodeAndAppend.
  destruct (binaryReadInt16 (reader s)) as [[nByte [[|]|]] rd];
    try (exists []; split; [reflexivity | apply Hnil]).
  destruct (nByte <? 0); [exists []; split; [reflexivity | apply Hnil]|].
  destruct (ReadFull rd (Z.to_nat nByte)) as [[data [[|]|]] rd'];
    try (exists []; split; [reflexivity | apply Hnil]).
  destruct (negb (Z.of_nat (length data) =? nByte));
    [exists []; split; [reflexivity | apply Hnil]|].
  match goal with
  | |- context [decode dll h ?i ?n ?o ?nb ?w] =>
      pose proof (decode_trace h i n o nb w) as Ht;
      destruct (decode dll h i n o nb w) as [r w'] eqn:Ed
  end.
  cbn [snd] in Ht.
  assert (Hev : exists evs, forallb (is_decode_call h) evs = true /\
                            trace w' = trace (wld s) ++ evs).
  { destruct Ht as [Ht|Ht].
    - exists []. split; [reflexivity|]. now rewrite app_nil_r.
    - eexists [_]. split; [|exact Ht]. cbn. now rewrite Z.eqb_refl. }
  destruct Hev as (evs & Hd & Htr). exists evs. split; [exact Hd|].
  destruct r as [[len buf']| |]; try exact Htr.
  destruct (slice_to buf' len); exact Htr.
Qed.

Lemma loop_trace (fuel : nat) (h : Z) (s : lstate L)
    (r : outcome (list byte)) (w' : world L) :
  loop dll fuel h s = Some (r, w') ->
  exists evs,
    forallb (is_decode_call h) evs = true /\ trace w' = trace (wld s) ++ evs.
Proof.
  revert s. induction fuel as [|fuel IH]; intros s; [discriminate|].
  cbn [loop]. destruct (step_trace h s) as (evs & Hd & Ht).
  destruct (step dll h s) as [s1|[r1 w1]].
  - intros H. apply IH in H. destruct H as (evs' & Hd' & Ht').
    exists (evs ++ evs'). split.
    + now rewrite forallb_app, Hd, Hd'.
    + now rewrite Ht', Ht, app_assoc.
  - intros [= <- <-]. now exists evs.
Qed.

(** The calls of a whole run of [Decode], started with an empty log. *)
Lemma Decode_erased_trace (src : Reader) (w : world L)
    (r : outcome (list byte)) (w' : world L) :
  Decode dll src (erase w) = Some (r, w') ->
  session_trace (trace w') /\
  (forall data, r = Ok data ->
     exists h evs,
       forallb (is_decode_call h) evs = true /\
       trace w' = CallCreateDecoder h :: CallSetSampleRate h 16000
                    :: CallSetFramesPerPacket h 1 :: evs).
Proof.
  unfold Decode. destruct (checkHeader src) as [[e|] rd].
  { intros [= <- <-]. split; [constructor | discriminate]. }
  unfold andThen, createDecoder.
  destruct (FindProc dll "CreateDecoder").
  { intros [= <- <-]. split; [constructor | discriminate]. }
  destruct (Call_CreateDecoder dll (lib (erase w))) as [[h [e|]] l1].
  { intros [= <- <-]. split; [constructor | discriminate]. }
  unfold setSampleRate. destruct (FindProc dll "setSampleRate").
  { intros [= <- <-]. split; [constructor | discriminate]. }
  destruct (Call_setSampleRate dll h 16000 _) as [[e|] l2].
  { intros [= <- <-]. split; [constructor | discriminate]. }
  unfold setFramesPerPacket. destruct (FindProc dll "setFramesPerPacket").
  { intros [= <- <-]. split; [constructor | discriminate]. }
  destruct (Call_setFramesPerPacket dll h 1 _) as [[e|] l3].
  { intros [= <- <-]. split; [now constructor | discriminate]. }
  intros H. apply loop_trace in H. destruct H as (evs & Hd & Ht).
  cbn in Ht. split.
  - rewrite Ht. now constructor.
  - intros data _. now exists h, evs.
Qed.

Lemma session_trace_no_close (evs : list event) :
  session_trace evs -> forallb (fun e => negb (is_close_call e)) evs = true.
Proof.
  destruct 1 as [| | |h evs Hd]; try reflexivity.
  cbn. induction evs as [|e evs IH]; [reflexivity|].
  cbn in Hd |- *. apply andb_true_iff in Hd. destruct Hd as [He Hd].
  rewrite (IH Hd), andb_true_r. now destruct e.
Qed.

(** No run of [Decode] calls [CloseDecoder]. *)
Lemma Decode_never_closes (src : Reader) (w : world L)
    (r : outcome (list byte)) (w' : world L) :
  Decode dll src w = Some (r, w') ->
  exists evs,
    trace w' = trace w ++ evs /\
    session_trace evs /\
    forallb (fun e => negb (is_close_call e)) evs = true.
Proof.
  rewrite Decode_write_only.
  destruct (Decode dll src (erase w)) as [[r1 w1]|] eqn:E; [|discriminate].
  cbn [after_run]. intros [= <- <-].
  apply Decode_erased_trace in E. destruct E as [Hs _].
  exists (trace w1). repeat split; [exact Hs | now apply session_trace_no_close].
Qed.

(** [Decode] always returns. *)
Lemma Decode_returns (src : Reader) (w : world L) :
  exists r, Decode dll src w = Some r.
Proof.
  unfold Decode. destruct (checkHeader src) as [[e|] rd]; [now eexists|].
  unfold andThen.
  destruct (createDecoder dll w) as [[h| |] w1]; try now eexists.
  destruct (setSampleRate dll h 16000 w1) as [[u| |] w2]; try now eexists.
  destruct (setFramesPerPacket dll h 1 w2) as [[u'| |] w3]; try now eexists.
  apply loop_returns. cbn. lia.
Qed.

Lemma SilkToWav_returns (src : Reader) (w : world L) :
  exists r, SilkToWav dll src w = Some r.
Proof.
  unfold SilkToWav. destruct (Decode_returns src w) as [[[data| |] w1] ->];
    now eexists.
Qed.

(** [Decode] looks at its source only through [checkHeader]. *)
Lemma Decode_checkHeader (src1 src2 : Reader) (w : world L) :
  checkHeader src1 = checkHeader src2 -> Decode dll src1 w = Decode dll src2 w.
Proof. unfold Decode. now intros ->. Qed.

Lemma Decode_header_error (src : Reader) (e : error) (w : world L) :
  fst (checkHeader src) = Some e -> Decode dll src w = Some (Err e, w).
Proof.
  unfold Decode. destruct (checkHeader src) as [[e'|] rd]; cbn [fst];
    [now intros [= ->] | discriminate].
Qed.

End TraceFacts.

(** ** Little-endian fields *)

Lemma byte_of_Z_mod (z : Z) : byte.of_Z (z mod 256) = byte.of_Z z.
Proof.
  apply byte.unsigned_inj. rewrite !byte.unsigned_of_Z. unfold byte.wrap.
  change (2 ^ 8) with 256. apply Zmod_mod.
Qed.

Lemma byte_of_Z_congr (a b : Z) : a mod 256 = b mod 256 -> byte.of_Z a = byte.of_Z b.
Proof. intros H. now rewrite <- (byte_of_Z_mod a), H, byte_of_Z_mod. Qed.

(** [byte(x & 0xff)] is [byte(x)]. *)
Lemma to_byte_mask (x : Z) : GoInt.to_byte (Z.land x 255) = byte.of_Z x.
Proof.
  unfold GoInt.to_byte. change 255 with (Z.ones 8).
  rewrite Z.land_ones by lia. apply byte_of_Z_mod.
Qed.

(** The bits of [x] below bit 64 survive the wrap-around of [int]. *)
Lemma int_testbit (x i : Z) : 0 <= i < 64 -> Z.testbit (GoInt.int x) i = Z.testbit x i.
Proof.
  intros Hi.
  rewrite <- (Z.mod_pow2_bits_low (GoInt.int x) 64 i) by lia.
  rewrite <- (Z.mod_pow2_bits_low x 64 i) by lia.
  unfold GoInt.int. now rewrite GoIntFacts.swrap_mod by lia.
Qed.

Lemma byte_of_int_shift (x k : Z) :
  0 <= k <= 56 -> byte.of_Z (Z.shiftr (GoInt.int x) k) = byte.of_Z (Z.shiftr x k).
Proof.
  intros Hk. apply byte_of_Z_congr. change 256 with (2 ^ 8).
  apply Z.bits_inj'. intros i Hi.
  destruct (Z.ltb_spec i 8).
  - rewrite !Z.mod_pow2_bits_low, !Z.shiftr_spec by lia.
    apply int_testbit. lia.
  - now rewrite !Z.mod_pow2_bits_high by lia.
Qed.

Lemma le_split_S (n : nat) (v : Z) :
  le_split (S n) v = byte.of_Z v :: le_split n (Z.shiftr v 8).
Proof. reflexivity. Qed.

Lemma le_split_4 (v : Z) :
  le_split 4 v =
    [byte.of_Z v; byte.of_Z (Z.shiftr v 8); byte.of_Z (Z.shiftr v 16);
     byte.of_Z (Z.shiftr v 24)].
Proof.
  rewrite !le_split_S. change (le_split 0 _) with (@nil byte).
  rewrite !Z.shiftr_shiftr by lia. reflexivity.
Qed.

Lemma le_split_4_int (v : Z) : le_split 4 (GoInt.int v) = le_split 4 v.
Proof.
  rewrite !le_split_4. rewrite <- (Z.shiftr_0_r (GoInt.int v)) at 1.
  rewrite <- (Z.shiftr_0_r v) at 1.
  now rewrite !byte_of_int_shift by lia.
Qed.

(** ** pcmToWav *)

Lemma pcmToWav_layout (dst : list byte) (numchannel saplerate : Z) :
  pcmToWav dst numchannel saplerate =
    wavHeader (Z.of_nat (length dst)) numchannel saplerate ++ dst.
Proof.
  unfold pcmToWav, wavHeader. cbv zeta. f_equal.
  cbn [store firstn skipn repeat app].
  rewrite !to_byte_mask.
  unfold GoInt.add. 
  rewrite <- (le_split_4_int (Z.of_nat (length dst) + 36)).
  rewrite !le_split_4.
  rewrite <- (Z.shiftr_0_r (GoInt.int (Z.of_nat (length dst) + 36))) at 4.
  rewrite <- (Z.shiftr_0_r (Z.of_nat (length dst))) at 5.
  reflexivity.
Qed.

(** ** Decode and its loop *)

Section DecodeLoop.

Context {L : Type}.
Variable dll : Dll L.

Lemma during_Decode (src : Reader) (w : world L) (h : Z) (s : lstate L)
    (r : outcome (list byte) * world L) :
  during dll src w h s -> step dll h s = inr r -> Decode dll src w = Some r.
Proof.
  intros (rd & w1 & w2 & w3 & u1 & u2 & Hh & Hc & Hr & Hf & Hreach) Hs.
  unfold Decode, andThen. rewrite Hh, Hc, Hr, Hf.
  apply (loop_spec dll h); [cbn; lia|]. now exists s.
Qed.

Lemma Decode_ok_during (src : Reader) (w w' : world L) (o : list byte) :
  Decode dll src w = Some (Ok o, w') ->
  exists h s, during dll src w h s /\ step dll h s = inr (Ok o, w').
Proof.
  unfold Decode, andThen.
  destruct (checkHeader src) as [[e|] rd] eqn:Hh; [discriminate|].
  destruct (createDecoder dll w) as [[h| |] w1] eqn:Hc; try discriminate.
  destruct (setSampleRate dll h 16000 w1) as [[u1| |] w2] eqn:Hr; try discriminate.
  destruct (setFramesPerPacket dll h 1 w2) as [[u2| |] w3] eqn:Hf; try discriminate.
  intros H. apply (loop_spec dll h) in H; [|cbn; lia].
  destruct H as (s & Hreach & Hs). exists h, s. split; [|exact Hs].
  now exists rd, w1, w2, w3, u1, u2.
Qed.

(** The buffer [buf] keeps the size it was made with. *)
Lemma step_buf_length (h : Z) (s s' : lstate L) :
  step dll h s = inl s' -> length (buf s') = length (buf s).
Proof.
  intros H. apply step_inl_inv in H.
  destruct H as (b0 & b1 & rest & len & frame & _ & _ & _ & Hd & _).
  now apply decode_ok_inv in Hd.
Qed.

Lemma reach_buf_length (h : Z) (s s' : lstate L) :
  reach dll h s s' -> length (buf s') = length (buf s).
Proof.
  induction 1 as [|s s1 s' Hs _ IH]; [reflexivity|].
  rewrite IH. now apply (step_buf_length h).
Qed.

Lemma during_buf_length (src : Reader) (w : world L) (h : Z) (s : lstate L) :
  during dll src w h s -> length (buf s) = 3840%nat.
Proof.
  intros (rd & w1 & w2 & w3 & u1 & u2 & _ & _ & _ & _ & Hreach).
  apply reach_buf_length in Hreach. rewrite Hreach. reflexivity.
Qed.

End DecodeLoop.

(** * Properties C1 to C10 *)

(** ** Header validation *)

Lemma readMagic_not_invalid_first (r : Reader) (stx : byte) :
  fst (readMagic r) <> Some (ErrInvalidFirst stx).
Proof.
  unfold readMagic. destruct (ReadFull r HeaderLen) as [[header [e|]] rd];
    cbn [fst]; [discriminate|].
  destruct (negb (length header =? HeaderLen)%nat); [discriminate|].
  destruct (negb (bytes_eqb header HeaderBytes)); discriminate.
Qed.

(** C8: in header validation the error "invalid first byte" cannot occur:
    when the peeked first byte is 0x02, the single-byte read that follows
    returns that same byte without error, so for no input does
    [checkHeader] return the marker-mismatch error. *)
Theorem invalid_first_byte_unreachable (r : Reader) :
  (forall first, Peek 1 r = (first, None) -> nth 0 first Byte.x00 = STX ->
     fst (ReadByte r) = (STX, None)) /\
  (forall stx, fst (checkHeader r) <> Some (ErrInvalidFirst stx)).
Proof.
  split.
  - intros first. destruct r as [|b r']; [discriminate|].
    cbn. intros [= <-]. cbn. now intros ->.
  - intros stx. rewrite checkHeader_unfold. destruct r as [|b r'];
      [discriminate|].
    destruct (Byte.eqb b STX); apply readMagic_not_invalid_first.
Qed.

Lemma invalid_first_byte_unreachable_witness :
  fst (ReadByte (STX :: HeaderBytes)) = (STX, None) /\
  fst (checkHeader (STX :: HeaderBytes)) <> Some (ErrInvalidFirst STX).
Proof.
  split.
  - apply (proj1 (invalid_first_byte_unreachable (STX :: HeaderBytes)) [STX]);
      reflexivity.
  - apply (proj2 (invalid_first_byte_unreachable (STX :: HeaderBytes))).
Defined.

(** C3: for an input [b] that begins with the nine bytes of the magic, the
    conversion of 0x02 followed by [b] returns exactly what the conversion
    of [b] returns; and a stream whose first nine bytes (or, after a leading
    0x02, next nine bytes) are not the magic fails header validation with a
    format error, which is what the conversion returns. *)
Theorem marker_prefix_transparent (L : Type) (dll : Dll L) (b : list byte)
    (w : world L) :
  (firstn HeaderLen b = HeaderBytes ->
     exists r, SilkToWav dll b w = Some r /\ SilkToWav dll (STX :: b) w = Some r) /\
  (firstn HeaderLen b <> HeaderBytes ->
     (exists e, fst (checkHeader (STX :: b)) = Some e /\
                is_format_error e = true /\
                SilkToWav dll (STX :: b) w = Some (Err e, w)) /\
     (hd_error b <> Some STX ->
      exists e, fst (checkHeader b) = Some e /\
                is_format_error e = true /\
                SilkToWav dll b w = Some (Err e, w))).
Proof.
  split.
  - intros Hm. destruct (SilkToWav_returns dll b w) as [r Hr].
    exists r. split; [exact Hr|]. rewrite <- Hr. unfold SilkToWav.
    rewrite (Decode_checkHeader dll (STX :: b) b); [reflexivity|].
    rewrite (has_magic_split b Hm).
    now rewrite checkHeader_stx_magic, checkHeader_magic.
  - intros Hne. split.
    + destruct (readMagic_fail b Hne) as (e & He & Hf).
      exists e. rewrite checkHeader_stx. repeat split; try assumption.
      unfold SilkToWav. rewrite (Decode_header_error dll (STX :: b) e);
        [reflexivity|]. now rewrite checkHeader_stx.
    + intros Hhd. destruct (checkHeader_fail b Hhd Hne) as (e & He & Hf).
      exists e. repeat split; try assumption.
      unfold SilkToWav. now rewrite (Decode_header_error dll b e).
Qed.

Lemma marker_prefix_transparent_witness :
  (exists r,
     SilkToWav (stubDll 10) (HeaderBytes ++ block4 ++ footer) w0 = Some r /\
     SilkToWav (stubDll 10) (STX :: HeaderBytes ++ block4 ++ footer) w0 = Some r) /\
  (exists e,
     fst (checkHeader (list_byte_of_string "#!SILK_V2x")) = Some e /\
     is_format_error e = true /\
     SilkToWav (stubDll 10) (list_byte_of_string "#!SILK_V2x") w0 = Some (Err e, w0)).
Proof.
  split.
  - apply (proj1 (marker_prefix_transparent unit (stubDll 10)
                    (HeaderBytes ++ block4 ++ footer) w0)).
    reflexivity.
  - apply (proj2 (marker_prefix_transparent unit (stubDll 10)
                    (list_byte_of_string "#!SILK_V2x") w0)).
    + discriminate.
    + discriminate.
Defined.

(** ** The PCM container *)

Lemma wavHeader_length (totalAudioLen numchannel saplerate : Z) :
  length (wavHeader totalAudioLen numchannel saplerate) = 44%nat.
Proof.
  unfold wavHeader. rewrite !length_app, !length_le_split. reflexivity.
Qed.

Lemma skipn_app_le {A : Type} (n : nat) (a b : list A) :
  (n <= length a)%nat -> skipn n (a ++ b) = skipn n a ++ b.
Proof.
  intros H. rewrite skipn_app. replace (n - length a)%nat with 0%nat by lia.
  reflexivity.
Qed.

Lemma firstn_app_le {A : Type} (n : nat) (a b : list A) :
  (n <= length a)%nat -> firstn n (a ++ b) = firstn n a.
Proof.
  intros H. rewrite firstn_app. replace (n - length a)%nat with 0%nat by lia.
  cbn. apply app_nil_r.
Qed.

(** A field of the header, read back from the container. *)
Lemma pcmToWav_field (dst : list byte) (numchannel saplerate : Z) (off len : nat) :
  (off + len <= 44)%nat ->
  firstn len (skipn off (pcmToWav dst numchannel saplerate)) =
    firstn len (skipn off (wavHeader (Z.of_nat (length dst)) numchannel saplerate)).
Proof.
  intros H. rewrite pcmToWav_layout.
  rewrite skipn_app_le by (rewrite wavHeader_length; lia).
  apply firstn_app_le. rewrite length_skipn, wavHeader_length. lia.
Qed.

Lemma pcmToWav_byte (dst : list byte) (numchannel saplerate : Z) (i : nat) :
  (i < 44)%nat ->
  nth i (pcmToWav dst numchannel saplerate) Byte.x00 =
    nth i (wavHeader (Z.of_nat (length dst)) numchannel saplerate) Byte.x00.
Proof.
  intros H. rewrite pcmToWav_layout. apply app_nth1.
  now rewrite wavHeader_length.
Qed.

Lemma wavHeader_fields (totalAudioLen numchannel saplerate : Z) :
  let h := wavHeader totalAudioLen numchannel saplerate in
  firstn 4 (skipn 4 h) = le_split 4 (totalAudioLen + 36) /\
  firstn 2 (skipn 22 h) = [byte.of_Z numchannel; Byte.x00] /\
  firstn 4 (skipn 24 h) = le_split 4 saplerate /\
  firstn 4 (skipn 28 h) = le_split 4 (byteRate_of saplerate numchannel) /\
  firstn 2 (skipn 32 h) = le_split 2 4 /\
  firstn 4 (skipn 40 h) = le_split 4 totalAudioLen.
Proof.
  cbv zeta. unfold wavHeader. rewrite !le_split_4. repeat split; reflexivity.
Qed.

(** C4: for a sample buffer of [L] bytes and any channel count and sample
    rate, [pcmToWav] returns [44 + L] bytes; bytes 4-7 are the four-byte
    little-endian encoding of [L + 36], bytes 40-43 that of [L] (each reads
    back as the value modulo 2^32), and the last [L] bytes are the sample
    buffer unchanged. *)
Theorem pcmToWav_sizes (dst : list byte) (numchannel saplerate : Z) :
  let L := Z.of_nat (length dst) in
  let res := pcmToWav dst numchannel saplerate in
  length res = (44 + length dst)%nat /\
  firstn 4 (skipn 4 res) = le_split 4 (L + 36) /\
  le_combine (firstn 4 (skipn 4 res)) = (L + 36) mod 2 ^ 32 /\
  firstn 4 (skipn 40 res) = le_split 4 L /\
  le_combine (firstn 4 (skipn 40 res)) = L mod 2 ^ 32 /\
  skipn 44 res = dst.
Proof.
  cbv zeta.
  destruct (wavHeader_fields (Z.of_nat (length dst)) numchannel saplerate)
    as (H4 & _ & _ & _ & _ & H40).
  rewrite !pcmToWav_field by lia. rewrite H4, H40, !le_combine_split.
  split; [now rewrite pcmToWav_layout, length_app, wavHeader_length|].
  do 4 (split; [reflexivity|]).
  rewrite pcmToWav_layout.
  rewrite <- (wavHeader_length (Z.of_nat (length dst)) numchannel saplerate).
  apply skipn_app_len.
Qed.

(** The byte rate when nothing overflows: the arithmetic value. *)
Lemma byteRate_of_exact (saplerate numchannel : Z) :
  0 <= saplerate -> 0 <= numchannel -> 16 * saplerate * numchannel < 2 ^ 63 ->
  byteRate_of saplerate numchannel = 16 * saplerate * numchannel / 8.
Proof.
  intros Hs Hc Hb. unfold byteRate_of, GoInt.div, GoInt.mul.
  destruct (Z.eq_dec numchannel 0) as [->|Hnz].
  { rewrite !Z.mul_0_r. reflexivity. }
  assert (Hp : 0 <= 16 * saplerate <= 16 * saplerate * numchannel) by nia.
  rewrite (GoIntFacts.int_small (16 * saplerate)) by lia.
  rewrite (GoIntFacts.int_small (16 * saplerate * numchannel)) by lia.
  rewrite Z.quot_div_nonneg by lia.
  apply GoIntFacts.int_small.
  assert (0 <= 16 * saplerate * numchannel / 8) by (apply Z.div_pos; lia).
  assert (16 * saplerate * numchannel / 8 <= 16 * saplerate * numchannel)
    by (apply Z.div_le_upper_bound; lia).
  lia.
Qed.

(** C5: whatever the channel count, bytes 32-33 (block align) are the
    constant 4, the value of [2 * 16 / 8], and bytes 28-31 (byte rate) are
    the four-byte little-endian encoding of [16 * saplerate * numchannel / 8]
    as Go's [int] computes it. *)
Theorem pcmToWav_block_align_and_byte_rate (dst : list byte)
    (numchannel saplerate : Z) :
  let res := pcmToWav dst numchannel saplerate in
  firstn 2 (skipn 32 res) = [Byte.x04; Byte.x00] /\
  GoInt.div (GoInt.mul 2 16) 8 = 4 /\
  le_combine (firstn 2 (skipn 32 res)) = 4 /\
  firstn 4 (skipn 28 res) =
    le_split 4 (GoInt.div (GoInt.mul (GoInt.mul 16 saplerate) numchannel) 8).
Proof.
  cbv zeta.
  destruct (wavHeader_fields (Z.of_nat (length dst)) numchannel saplerate)
    as (_ & _ & _ & H28 & H32 & _).
  rewrite !pcmToWav_field by lia. rewrite H28, H32.
  split; [reflexivity|]. split; [reflexivity|]. split; reflexivity.
Qed.

(** C9: the channel count is stored in one byte: byte 22 is [c mod 256] and
    byte 23 is 0, so the two-byte field reads back as [c mod 256], which for
    every [c >= 256] is not [c]; the byte-rate field is computed from [c]
    itself. *)
Theorem pcmToWav_channel_byte (dst : list byte) (c saplerate : Z) :
  let res := pcmToWav dst c saplerate in
  byte.unsigned (nth 22 res Byte.x00) = c mod 256 /\
  nth 23 res Byte.x00 = Byte.x00 /\
  le_combine (firstn 2 (skipn 22 res)) = c mod 256 /\
  (256 <= c -> le_combine (firstn 2 (skipn 22 res)) <> c) /\
  firstn 4 (skipn 28 res) = le_split 4 (byteRate_of saplerate c).
Proof.
  cbv zeta.
  destruct (wavHeader_fields (Z.of_nat (length dst)) c saplerate)
    as (_ & H22 & _ & H28 & _ & _).
  rewrite !pcmToWav_field, !pcmToWav_byte by lia. rewrite H22, H28.
  assert (Hc : le_combine [byte.of_Z c; Byte.x00] = c mod 256).
  { change [byte.of_Z c; Byte.x00] with ([byte.of_Z c] ++ repeat Byte.x00 1).
    rewrite le_combine_app_0, le_combine_1, byte.unsigned_of_Z. reflexivity. }
  split; [|split; [|split; [|split]]].
  - unfold wavHeader. rewrite !le_split_4. cbn [app list_byte_of_string nth].
    apply byte.unsigned_of_Z.
  - unfold wavHeader. rewrite !le_split_4. reflexivity.
  - exact Hc.
  - intros Hge. rewrite Hc. pose proof (Z.mod_pos_bound c 256). lia.
  - reflexivity.
Qed.

Lemma pcmToWav_channel_byte_witness :
  le_combine (firstn 2 (skipn 22 (pcmToWav [] 256 16000))) <> 256 /\
  firstn 4 (skipn 28 (pcmToWav [] 256 16000)) = le_split 4 8192000.
Proof.
  split.
  - apply (proj1 (proj2 (proj2 (proj2 (pcmToWav_channel_byte [] 256 16000))))).
    lia.
  - apply (proj2 (proj2 (proj2 (proj2 (pcmToWav_channel_byte [] 256 16000))))).
Defined.

(** ** The block loop *)

(** C1, as the code has it: when [Decode] is at a length field that
    declares [n >= 0] and fewer than [n] bytes follow, then with at least one
    byte following it fails with the stream-corruption error "failed to read
    block" (cause: unexpected end of file), returning no block and no
    samples; with no byte at all following, the loop is left by [break] and
    [Decode] returns the samples accumulated so far, without error. *)
Theorem truncated_block (L : Type) (dll : Dll L) (src : Reader) (w : world L)
    (h : Z) (s : lstate L) (b0 b1 : byte) (rest : list byte) :
  during dll src w h s ->
  reader s = b0 :: b1 :: rest ->
  0 <= lengthField b0 b1 ->
  Z.of_nat (length rest) < lengthField b0 b1 ->
  (rest <> [] ->
     Decode dll src w = Some (Err (ErrReadBlock ErrUnexpectedEOF), wld s) /\
     is_stream_corruption (ErrReadBlock ErrUnexpectedEOF) = true) /\
  (rest = [] -> Decode dll src w = Some (Ok (out s), wld s)).
Proof.
  intros Hd Hr Hn Hlt. split.
  - intros Hne. split; [|reflexivity].
    apply (during_Decode dll src w h s); [exact Hd|].
    apply (step_truncated dll h s b0 b1 rest Hr).
    destruct rest; [congruence | cbn [length] in *; lia].
  - intros ->. apply (during_Decode dll src w h s); [exact Hd|].
    apply step_ok_iff. rewrite Hr. repeat split.
    apply end_before_payload. cbn [length] in Hlt. lia.
Qed.

(** A stream whose only block declares ten bytes and holds three. *)
Lemma truncated_block_witness :
  Decode (stubDll 10)
    (HeaderBytes ++ [Byte.x0a; Byte.x00; Byte.x01; Byte.x02; Byte.x03]) w0
  = Some (Err (ErrReadBlock ErrUnexpectedEOF),
          {| lib := tt;
             trace := [CallCreateDecoder 7; CallSetSampleRate 7 16000;
                       CallSetFramesPerPacket 7 1] |}).
Proof.
  refine (proj1 (proj1 (truncated_block unit (stubDll 10)
    (HeaderBytes ++ [Byte.x0a; Byte.x00; Byte.x01; Byte.x02; Byte.x03]) w0 7
    (entry [Byte.x0a; Byte.x00; Byte.x01; Byte.x02; Byte.x03]
       {| lib := tt;
          trace := [CallCreateDecoder 7; CallSetSampleRate 7 16000;
                    CallSetFramesPerPacket 7 1] |})
    Byte.x0a Byte.x00 [Byte.x01; Byte.x02; Byte.x03] _ _ _ _) _)).
  - do 4 eexists. exists tt, tt.
    repeat (split; [reflexivity|]). apply reach_here.
  - reflexivity.
  - vm_compute. discriminate.
  - vm_compute. reflexivity.
  - discriminate.
Defined.

(** C1 in its stated form fails on the code: after one whole block, a length field
    declaring ten bytes with nothing behind it ends the run cleanly, with
    the 20 bytes of the first block as result. *)
Lemma truncated_block_counterexample :
  binaryReadInt16 [Byte.x0a; Byte.x00] = ((10, None), []) /\
  Decode (stubDll 10) (HeaderBytes ++ block4 ++ [Byte.x0a; Byte.x00]) w0
  = Some (Ok (repeat Byte.xab 20),
          {| lib := tt;
             trace := [CallCreateDecoder 7; CallSetSampleRate 7 16000;
                       CallSetFramesPerPacket 7 1;
                       CallDecode 7 [Byte.x01; Byte.x02; Byte.x03; Byte.x04] 4] |}).
Proof. split; vm_compute; reflexivity. Qed.

(** C2, as the code has it: [Decode] returns without error exactly when its
    loop comes to one of three reading situations: the source ends before
    the first byte of a length field, a length field is negative (whatever
    bytes follow it), or a positive length field is followed by no byte at
    all; what it returns is the output accumulated up to there. *)
Theorem clean_end_iff (L : Type) (dll : Dll L) (src : Reader) (w w' : world L)
    (o : list byte) :
  Decode dll src w = Some (Ok o, w') <->
  exists h s,
    during dll src w h s /\ clean_end (reader s) /\ o = out s /\ w' = wld s.
Proof.
  split.
  - intros H. apply Decode_ok_during in H. destruct H as (h & s & Hd & Hs).
    exists h, s. split; [exact Hd|]. now apply (step_ok_iff dll h).
  - intros (h & s & Hd & Hc & -> & ->).
    apply (during_Decode dll src w h s); [exact Hd|].
    now apply step_ok_iff.
Qed.

(** A footer followed by further bytes. *)
Lemma clean_end_iff_witness :
  Decode (stubDll 10) (HeaderBytes ++ footer ++ [Byte.x01; Byte.x02]) w0
  = Some (Ok [],
          {| lib := tt;
             trace := [CallCreateDecoder 7; CallSetSampleRate 7 16000;
                       CallSetFramesPerPacket 7 1] |}).
Proof.
  apply (proj2 (clean_end_iff unit (stubDll 10)
                  (HeaderBytes ++ footer ++ [Byte.x01; Byte.x02]) w0 _ [])).
  exists 7. eexists (entry (footer ++ [Byte.x01; Byte.x02]) _).
  split; [|split; [|split; reflexivity]].
  - do 4 eexists. exists tt, tt.
    repeat (split; [reflexivity|]). apply reach_here.
  - apply negative_length. vm_compute. reflexivity.
Defined.

(** C2 in its stated form fails on the code in both directions: a length field of
    ten, read whole and not negative, with nothing behind it ends the run
    without error; and a source that ends inside the length field makes
    the run fail. *)
Lemma clean_end_counterexample :
  binaryReadInt16 [Byte.x0a; Byte.x00] = ((10, None), []) /\
  option_map fst (Decode (stubDll 10) (HeaderBytes ++ [Byte.x0a; Byte.x00]) w0)
    = Some (Ok []) /\
  binaryReadInt16 [Byte.x0a] = ((0, Some ErrUnexpectedEOF), []) /\
  option_map fst (Decode (stubDll 10) (HeaderBytes ++ [Byte.x0a]) w0)
    = Some (Err (ErrReadBlockSize ErrUnexpectedEOF)).
Proof. repeat split; vm_compute; reflexivity. Qed.

(** ** Two libraries that behave the same *)

Section Simulation.

Context {L1 L2 : Type}.
Variable dll1 : Dll L1.
Variable dll2 : Dll L2.
Variable R : L1 -> L2 -> Prop.
Hypothesis Hsame : same_behaviour dll1 dll2 R.

Lemma same_world_called (w1 : world L1) (w2 : world L2) (l1 : L1) (l2 : L2)
    (e : event) :
  same_world R w1 w2 -> R l1 l2 -> same_world R (called w1 l1 e) (called w2 l2 e).
Proof. intros [_ Ht] Hr. split; [exact Hr|]. cbn. now rewrite Ht. Qed.

Lemma createDecoder_sim (w1 : world L1) (w2 : world L2) :
  same_world R w1 w2 ->
  fst (createDecoder dll1 w1) = fst (createDecoder dll2 w2) /\
  same_world R (snd (createDecoder dll1 w1)) (snd (createDecoder dll2 w2)).
Proof.
  intros Hw. destruct Hsame as (Hfind & Hcreate & _).
  unfold createDecoder. rewrite Hfind.
  destruct (FindProc dll2 "CreateDecoder"); [now split|].
  destruct (Hcreate _ _ (proj1 Hw)) as [Hf Hr].
  destruct (Call_CreateDecoder dll1 (lib w1)) as [[h1 e1] l1'].
  destruct (Call_CreateDecoder dll2 (lib w2)) as [[h2 e2] l2'].
  cbn [fst snd] in Hf, Hr. injection Hf as -> ->.
  destruct e2; cbn [fst snd]; (split; [reflexivity|]);
    now apply same_world_called.
Qed.

Lemma setSampleRate_sim (h v : Z) (w1 : world L1) (w2 : world L2) :
  same_world R w1 w2 ->
  fst (setSampleRate dll1 h v w1) = fst (setSampleRate dll2 h v w2) /\
  same_world R (snd (setSampleRate dll1 h v w1)) (snd (setSampleRate dll2 h v w2)).
Proof.
  intros Hw. destruct Hsame as (Hfind & _ & Hrate & _).
  unfold setSampleRate. rewrite Hfind.
  destruct (FindProc dll2 "setSampleRate"); [now split|].
  destruct (Hrate h v _ _ (proj1 Hw)) as [Hf Hr].
  destruct (Call_setSampleRate dll1 h v (lib w1)) as [e1 l1'].
  destruct (Call_setSampleRate dll2 h v (lib w2)) as [e2 l2'].
  cbn [fst snd] in Hf, Hr. subst e1.
  destruct e2; cbn [fst snd]; (split; [reflexivity|]);
    now apply same_world_called.
Qed.

Lemma setFramesPerPacket_sim (h v : Z) (w1 : world L1) (w2 : world L2) :
  same_world R w1 w2 ->
  fst (setFramesPerPacket dll1 h v w1) = fst (setFramesPerPacket dll2 h v w2) /\
  same_world R (snd (setFramesPerPacket dll1 h v w1))
    (snd (setFramesPerPacket dll2 h v w2)).
Proof.
  intros Hw. destruct Hsame as (Hfind & _ & _ & Hfpp & _).
  unfold setFramesPerPacket. rewrite Hfind.
  destruct (FindProc dll2 "setFramesPerPacket"); [now split|].
  destruct (Hfpp h v _ _ (proj1 Hw)) as [Hf Hr].
  destruct (Call_setFramesPerPacket dll1 h v (lib w1)) as [e1 l1'].
  destruct (Call_setFramesPerPacket dll2 h v (lib w2)) as [e2 l2'].
  cbn [fst snd] in Hf, Hr. subst e1.
  destruct e2; cbn [fst snd]; (split; [reflexivity|]);
    now apply same_world_called.
Qed.

Lemma decode_sim (h : Z) (inData : list byte) (n : Z) (outData : list byte)
    (nByte : Z) (w1 : world L1) (w2 : world L2) :
  same_world R w1 w2 ->
  fst (decode dll1 h inData n outData nByte w1)
    = fst (decode dll2 h inData n outData nByte w2) /\
  same_world R (snd (decode dll1 h inData n outData nByte w1))
    (snd (decode dll2 h inData n outData nByte w2)).
Proof.
  intros Hw. destruct Hsame as (Hfind & _ & _ & _ & Hdec).
  unfold decode. rewrite Hfind.
  destruct (FindProc dll2 "Decode"); [now split|].
  destruct inData as [|i0 inData]; [now split|].
  destruct outData as [|o0 outData]; [now split|].
  destruct (Hdec h (i0 :: inData) n (o0 :: outData) nByte _ _ (proj1 Hw)) as [Hf Hr].
  destruct (Call_Decode dll1 h (i0 :: inData) n (o0 :: outData) nByte (lib w1))
    as [[[wr1 c1] e1] l1'].
  destruct (Call_Decode dll2 h (i0 :: inData) n (o0 :: outData) nByte (lib w2))
    as [[[wr2 c2] e2] l2'].
  cbn [fst snd] in Hf, Hr. injection Hf as -> -> ->.
  destruct e2; cbn [fst snd]; (split; [reflexivity|]);
    now apply same_world_called.
Qed.

Lemma step_sim (h : Z) (s1 : lstate L1) (s2 : lstate L2) :
  same_state R s1 s2 -> same_pass R (step dll1 h s1) (step dll2 h s2).
Proof.
  destruct s1 as [rd1 i1 b1 o1 w1], s2 as [rd2 i2 b2 o2 w2].
  unfold same_state. cbn [reader inb buf out wld].
  intros (-> & -> & -> & -> & Hw).
  unfold step, decodeAndAppend. cbn [reader inb buf out wld].
  destruct (binaryReadInt16 rd2) as [[nByte [[|]|]] rd]; cbn [same_pass];
    try (split; [reflexivity | exact Hw]).
  destruct (nByte <? 0); cbn [same_pass]; [split; [reflexivity | exact Hw]|].
  destruct (ReadFull rd (Z.to_nat nByte)) as [[data [[|]|]] rd']; cbn [same_pass];
    try (split; [reflexivity | exact Hw]).
  destruct (negb (Z.of_nat (length data) =? nByte)); cbn [same_pass];
    [split; [reflexivity | exact Hw]|].
  match goal with
  | |- context [decode dll1 h ?i ?n ?o ?nb w1] =>
      destruct (decode_sim h i n o nb w1 w2 Hw) as [Hf Hr];
      destruct (decode dll1 h i n o nb w1) as [r1 wa];
      destruct (decode dll2 h i n o nb w2) as [r2 wb]
  end.
  cbn [fst snd] in Hf, Hr. subst r1.
  destruct r2 as [[len buf']| |]; cbn [same_pass]; try (split; [reflexivity | exact Hr]).
  destruct (slice_to buf' len); cbn [same_pass]; [split; [reflexivity | exact Hr]|].
  unfold same_state. cbn [reader inb buf out wld].
  repeat (split; [reflexivity|]). exact Hr.
Qed.

Lemma loop_sim (fuel : nat) (h : Z) (s1 : lstate L1) (s2 : lstate L2) :
  same_state R s1 s2 -> same_run R (loop dll1 fuel h s1) (loop dll2 fuel h s2).
Proof.
  revert s1 s2. induction fuel as [|fuel IH]; intros s1 s2 Hs; [exact I|].
  cbn [loop]. pose proof (step_sim h s1 s2 Hs) as Hp.
  destruct (step dll1 h s1) as [a|[r1 wa]], (step dll2 h s2) as [b|[r2 wb]];
    cbn [same_pass] in Hp; try contradiction.
  - now apply IH.
  - exact Hp.
Qed.

Lemma Decode_sim (src : Reader) (w1 : world L1) (w2 : world L2) :
  same_world R w1 w2 -> same_run R (Decode dll1 src w1) (Decode dll2 src w2).
Proof.
  intros Hw. unfold Decode. destruct (checkHeader src) as [[e|] rd].
  { cbn [same_run]. now split. }
  unfold andThen.
  destruct (createDecoder_sim w1 w2 Hw) as [Hf1 Hw1].
  destruct (createDecoder dll1 w1) as [r1 wa], (createDecoder dll2 w2) as [r2 wb].
  cbn [fst snd] in Hf1, Hw1. subst r1.
  destruct r2 as [h| |]; try (cbn [same_run]; now split).
  destruct (setSampleRate_sim h 16000 wa wb Hw1) as [Hf2 Hw2].
  destruct (setSampleRate dll1 h 16000 wa) as [r1 wa2],
           (setSampleRate dll2 h 16000 wb) as [r2 wb2].
  cbn [fst snd] in Hf2, Hw2. subst r1.
  destruct r2 as [u| |]; try (cbn [same_run]; now split).
  destruct (setFramesPerPacket_sim h 1 wa2 wb2 Hw2) as [Hf3 Hw3].
  destruct (setFramesPerPacket dll1 h 1 wa2) as [r1 wa3],
           (setFramesPerPacket dll2 h 1 wb2) as [r2 wb3].
  cbn [fst snd] in Hf3, Hw3. subst r1.
  destruct r2 as [u'| |]; try (cbn [same_run]; now split).
  apply loop_sim. unfold same_state, entry. cbn [reader inb buf out wld].
  repeat (split; [reflexivity|]). exact Hw3.
Qed.

Lemma SilkToWav_sim (src : Reader) (w1 : world L1) (w2 : world L2) :
  same_world R w1 w2 -> same_run R (SilkToWav dll1 src w1) (SilkToWav dll2 src w2).
Proof.
  intros Hw. unfold SilkToWav. pose proof (Decode_sim src w1 w2 Hw) as Hd.
  destruct (Decode dll1 src w1) as [[r1 wa]|], (Decode dll2 src w2) as [[r2 wb]|];
    cbn [same_run] in Hd; try contradiction; [|exact I].
  destruct Hd as [-> Hw']. destruct r2; cbn [same_run]; now split.
Qed.

End Simulation.

(** ** Appending a decoded frame *)

(** The counts whose doubling, in [int16], fits the 3840 bytes of [buf]. *)
Lemma int16_double_fits (count : Z) :
  - 32768 <= count <= 32767 ->
  (0 <= GoInt.int16 (count * 2) <= 3840 <->
   0 <= count <= 1920 \/ - 32768 <= count <= - 30848).
Proof.
  intros Hc. rewrite (GoIntFacts.int16_double count Hc).
  destruct (Z.ltb_spec count (-16384)); [|destruct (Z.ltb_spec count 16384)]; lia.
Qed.

Lemma reportedCount_range {L : Type} (dll : Dll L) (h : Z) (inData : list byte)
    (n : Z) (outData : list byte) (nByte : Z) (l : L) :
  - 32768 <= reportedCount dll h inData n outData nByte l <= 32767.
Proof. apply GoIntFacts.int16_range. Qed.

(** C10, as the code has it: for a block that [decode] decodes, the result
    [len] is twice the reported sample count computed in [int16], and the
    loop appends [buf[:len]] of the 3840-byte [buf]: [len] bytes.  The
    slice is in bounds exactly when the reported count lies in 0..1920 or in
    -32768..-30848 (whose doubles wrap to 0..3840); otherwise it panics.  A
    reported count above 16383 gives a negative [len]. *)
Theorem frame_append_bounds (L : Type) (dll : Dll L) (h : Z) (s : lstate L)
    (inData : list byte) (n nByte len : Z) (buf' rest inb' : list byte)
    (w' : world L) :
  length (buf s) = Z.to_nat (frameSize * 2) ->
  decode dll h inData n (buf s) nByte (wld s) = (Ok (len, buf'), w') ->
  let count := reportedCount dll h inData n (buf s) nByte (lib (wld s)) in
  let fits := 0 <= count <= 1920 \/ - 32768 <= count <= - 30848 in
  len = GoInt.int16 (count * 2) /\
  length buf' = 3840%nat /\
  (fits ->
     exists s',
       decodeAndAppend dll h s inData n nByte rest inb' = inl s' /\
       buf s' = buf' /\
       out s' = out s ++ firstn (Z.to_nat len) buf' /\
       Z.of_nat (length (out s')) = Z.of_nat (length (out s)) + len) /\
  (~ fits ->
     decodeAndAppend dll h s inData n nByte rest inb'
       = inr (Panic (SliceBoundsOutOfRange len 3840), w')) /\
  (16383 < count -> len < 0).
Proof.
  intros Hbuf Hd. cbv zeta.
  pose proof (reportedCount_range dll h inData n (buf s) nByte (lib (wld s))) as Hc.
  pose proof (int16_double_fits _ Hc) as Hfit.
  destruct (decode_ok_inv dll h _ _ _ _ _ _ _ _ Hd) as (_ & Hlen & Hbl & _).
  assert (Hb' : length buf' = 3840%nat) by (rewrite Hbl, Hbuf; reflexivity).
  split; [exact Hlen|]. split; [exact Hb'|]. split; [|split].
  - intros Hf. apply Hfit in Hf. rewrite <- Hlen in Hf.
    unfold decodeAndAppend. rewrite Hd.
    destruct (slice_to buf' len) as [p|frame] eqn:Es.
    + apply slice_to_panic in Es. rewrite Hb' in Es. lia.
    + eexists. split; [reflexivity|]. cbn [buf out].
      pose proof (slice_to_length _ _ _ Es) as Hfl.
      apply slice_to_ok in Es. destruct Es as [_ ->].
      repeat split. rewrite length_app, Nat2Z.inj_add, Hfl. reflexivity.
  - intros Hnf. unfold decodeAndAppend. rewrite Hd.
    destruct (slice_to buf' len) as [p|frame] eqn:Es.
    + apply slice_to_panic in Es. destruct Es as [_ ->]. now rewrite Hb'.
    + apply slice_to_ok in Es. rewrite Hb', Hlen in Es.
      elim Hnf. apply Hfit. lia.
  - intros Hgt. rewrite Hlen, (GoIntFacts.int16_double _ Hc).
    destruct (Z.ltb_spec (reportedCount dll h inData n (buf s) nByte (lib (wld s)))
                (-16384)); [lia|].
    destruct (Z.ltb_spec (reportedCount dll h inData n (buf s) nByte (lib (wld s)))
                16384); lia.
Qed.

(** The library reports ten samples for a block of four bytes. *)
Lemma frame_append_bounds_witness :
  exists s',
    decodeAndAppend (stubDll 10) 7 (entry [] w0)
      [Byte.x01; Byte.x02; Byte.x03; Byte.x04] 4 4 [] [] = inl s' /\
    Z.of_nat (length (out s')) = 0 + 20.
Proof.
  destruct (frame_append_bounds unit (stubDll 10) 7 (entry [] w0)
              [Byte.x01; Byte.x02; Byte.x03; Byte.x04] 4 4 20
              (repeat Byte.xab 20 ++ repeat Byte.x00 3820) [] []
              {| lib := tt;
                 trace := [CallDecode 7 [Byte.x01; Byte.x02; Byte.x03; Byte.x04] 4] |}
              eq_refl eq_refl)
    as (_ & _ & Hfit & _ & _).
  destruct Hfit as (s' & Hs & _ & _ & Hl).
  - left. vm_compute. split; discriminate.
  - exists s'. split; [exact Hs | exact Hl].
Defined.

(** C10 in its stated form fails on the code: the library reports -32768 samples,
    which is not between 0 and 1920, and the append is in bounds: the
    doubled count wraps to 0 and the run goes on to return without panic. *)
Lemma frame_append_counterexample :
  reportedCount (stubDll (-32768)) 7 [Byte.x01; Byte.x02; Byte.x03; Byte.x04] 4
    (repeat Byte.x00 3840) 4 tt = -32768 /\
  slice_to (repeat Byte.x00 3840) (GoInt.int16 (-32768 * 2)) = inr [] /\
  option_map fst (Decode (stubDll (-32768)) (HeaderBytes ++ block4 ++ footer) w0)
    = Some (Ok []).
Proof. repeat split; vm_compute; reflexivity. Qed.

(** ** The session *)

(** C6 does not hold of the code: a run that creates a session, configures
    it, decodes one block and returns its samples has made no call of
    [CloseDecoder]; the session is still open when [Decode] returns. *)
Theorem Decode_leaves_session_open :
  exists w',
    Decode (stubDll 10) (HeaderBytes ++ block4 ++ footer) w0
      = Some (Ok (repeat Byte.xab 20), w') /\
    trace w' = [CallCreateDecoder 7; CallSetSampleRate 7 16000;
                CallSetFramesPerPacket 7 1;
                CallDecode 7 [Byte.x01; Byte.x02; Byte.x03; Byte.x04] 4] /\
    existsb is_close_call (trace w') = false.
Proof. eexists. repeat split; vm_compute; reflexivity. Qed.

(** ** The conversion *)

(** A successful [Decode] has created the session by the library's
    [CreateDecoder], set its sample rate to 16000 by the library's
    [setSampleRate] and its frames per packet to 1 by the library's
    [setFramesPerPacket], each call made in the state the call before left,
    and has run its loop from the state the last of them left. *)
Lemma Decode_configured {L : Type} (dll : Dll L) (src : Reader) (w w' : world L)
    (data : list byte) :
  Decode dll src w = Some (Ok data, w') ->
  exists rd h l1 l2 l3,
    checkHeader src = (None, rd) /\
    Call_CreateDecoder dll (lib w) = ((h, None), l1) /\
    Call_setSampleRate dll h 16000 l1 = (None, l2) /\
    Call_setFramesPerPacket dll h 1 l2 = (None, l3) /\
    loop dll (S (length rd)) h
      (entry rd {| lib := l3;
                   trace := trace w ++ [CallCreateDecoder h; CallSetSampleRate h 16000;
                                        CallSetFramesPerPacket h 1] |})
      = Some (Ok data, w').
Proof.
  unfold Decode. destruct (checkHeader src) as [[e|] rd]; [discriminate|].
  unfold andThen, createDecoder.
  destruct (FindProc dll "CreateDecoder"); [discriminate|].
  destruct (Call_CreateDecoder dll (lib w)) as [[h [e|]] l1] eqn:E1; [discriminate|].
  unfold setSampleRate. destruct (FindProc dll "setSampleRate"); [discriminate|].
  cbn [lib called].
  destruct (Call_setSampleRate dll h 16000 l1) as [[e|] l2] eqn:E2; [discriminate|].
  unfold setFramesPerPacket. destruct (FindProc dll "setFramesPerPacket");
    [discriminate|].
  cbn [lib called].
  destruct (Call_setFramesPerPacket dll h 1 l2) as [[e|] l3] eqn:E3; [discriminate|].
  unfold called. cbn [trace lib]. rewrite <- !app_assoc. cbn [app].
  intros H. exists rd, h, l1, l2, l3. now repeat split.
Qed.



(** * Further properties of the code *)

(** ** Header validation *)

Lemma checkHeader_afterMarker (r : Reader) :
  r <> [] -> checkHeader r = readMagic (afterMarker r).
Proof.
  intros Hr. rewrite checkHeader_unfold. destruct r as [|b r']; [congruence|].
  cbn [afterMarker]. now destruct (Byte.eqb b STX).
Qed.

(** X1: header validation succeeds exactly on a stream that is the magic
    followed by anything, or the marker byte 0x02, the magic, and anything;
    what is left of the reader is what follows the magic, so nine or ten
    bytes are consumed.  Only one marker byte is skipped. *)
Theorem checkHeader_ok_iff (r r' : Reader) :
  checkHeader r = (None, r') <->
  r = HeaderBytes ++ r' \/ r = STX :: HeaderBytes ++ r'.
Proof.
  split.
  - apply checkHeader_ok_inv.
  - intros [-> | ->]; [apply checkHeader_magic | apply checkHeader_stx_magic].
Qed.

(** X2: a stream too short to hold the magic is refused, and the error tells
    how: an empty stream fails at the peek with end of file; when nothing
    follows the marker the header read fails with end of file; when fewer
    than nine bytes are there it fails with unexpected end of file. *)
Theorem checkHeader_truncated (r : Reader) :
  (length (afterMarker r) < HeaderLen)%nat ->
  fst (checkHeader r) =
    Some (match r, afterMarker r with
          | [], _ => ErrPeekFirst EOF
          | _ :: _, [] => ErrReadHeader EOF
          | _ :: _, _ :: _ => ErrReadHeader ErrUnexpectedEOF
          end).
Proof.
  intros Hlen. destruct r as [|b r0]; [reflexivity|].
  rewrite checkHeader_afterMarker by discriminate.
  destruct (afterMarker (b :: r0)) as [|m0 m] eqn:Em.
  - reflexivity.
  - unfold readMagic. rewrite ReadFull_short; [reflexivity|].
    cbn [length] in *. lia.
Qed.

Lemma checkHeader_truncated_witness :
  fst (checkHeader (STX :: list_byte_of_string "#!SILK")) =
    Some (ErrReadHeader ErrUnexpectedEOF).
Proof.
  apply (checkHeader_truncated (STX :: list_byte_of_string "#!SILK")).
  cbn. lia.
Defined.

(** X3: when at least nine bytes follow the optional marker and they are not
    the magic, the error is the mismatch error and carries exactly those
    nine bytes. *)
Theorem checkHeader_mismatch (r : Reader) :
  (HeaderLen <= length (afterMarker r))%nat ->
  firstn HeaderLen (afterMarker r) <> HeaderBytes ->
  fst (checkHeader r) = Some (ErrHeaderMismatch (firstn HeaderLen (afterMarker r))).
Proof.
  intros Hlen Hne.
  assert (Hr : r <> []) by (intros ->; cbn in Hlen; lia).
  rewrite checkHeader_afterMarker by exact Hr.
  unfold readMagic. rewrite ReadFull_enough by exact Hlen.
  rewrite firstn_length_le by exact Hlen. rewrite Nat.eqb_refl. cbn [negb].
  apply bytes_eqb_neq in Hne. now rewrite Hne.
Qed.

(** Two marker bytes: only the first is skipped. *)
Lemma checkHeader_mismatch_witness :
  fst (checkHeader (STX :: STX :: HeaderBytes)) =
    Some (ErrHeaderMismatch (STX :: list_byte_of_string "#!SILK_V")).
Proof.
  apply (checkHeader_mismatch (STX :: STX :: HeaderBytes)).
  - cbn. lia.
  - discriminate.
Defined.

(** X4: two more error returns of [checkHeader] are dead: the read of the
    marker byte cannot fail after a successful peek, and a header read
    without error always has the full length. *)
Theorem checkHeader_dead_errors (r : Reader) :
  (forall e, fst (checkHeader r) <> Some (ErrReadFirst e)) /\
  (forall n, fst (checkHeader r) <> Some (ErrHeaderLength n)).
Proof.
  assert (Hm : forall m, (forall e, fst (readMagic m) <> Some (ErrReadFirst e)) /\
                         (forall n, fst (readMagic m) <> Some (ErrHeaderLength n))).
  { intros m. unfold readMagic.
    destruct (ReadFull m HeaderLen) as [[header [e|]] rd] eqn:E; cbn [fst].
    - split; discriminate.
    - apply ReadFull_ok in E. destruct E as [_ Hl]. rewrite Hl, Nat.eqb_refl.
      cbn [negb]. destruct (negb (bytes_eqb header HeaderBytes)); split; discriminate. }
  destruct r as [|b r0]; [split; discriminate|].
  rewrite checkHeader_afterMarker by discriminate. apply Hm.
Qed.

(** ** The length field *)

Lemma le_combine_two (b0 b1 : byte) :
  le_combine [b0; b1] = byte.unsigned b0 + 256 * byte.unsigned b1.
Proof.
  change [b0; b1] with ([b0] ++ [b1]).
  rewrite le_combine_app, !le_combine_1.
  change (Z.of_nat (length [b0]) * 8) with 8.
  pose proof (byte.unsigned_range b0) as H0.
  pose proof (Z.add_lor_land (byte.unsigned b0) (Z.shiftl (byte.unsigned b1) 8)) as Ha.
  assert (Hl : Z.land (byte.unsigned b0) (Z.shiftl (byte.unsigned b1) 8) = 0).
  { apply Z.bits_inj'. intros i Hi. rewrite Z.land_spec, Z.bits_0.
    destruct (Z.ltb_spec i 8).
    - rewrite Z.shiftl_spec_low by lia. apply andb_false_r.
    - rewrite <- (Z.mod_small (byte.unsigned b0) (2 ^ 8)) by exact H0.
      rewrite Z.mod_pow2_bits_high by lia. reflexivity. }
  rewrite Hl, Z.shiftl_mul_pow2 in Ha by lia. rewrite Z.shiftl_mul_pow2 by lia.
  change (2 ^ 8) with 256 in *. lia.
Qed.

Lemma int16_unsigned (u : Z) :
  0 <= u < 65536 -> GoInt.int16 u = if u <? 32768 then u else u - 65536.
Proof.
  intros Hu. unfold GoInt.int16, GoInt.swrap.
  change (2 ^ (16 - 1)) with 32768. change (2 ^ 16) with 65536.
  destruct (Z.ltb_spec u 32768).
  - rewrite Z.mod_small by lia. lia.
  - replace (u + 32768) with ((u - 32768) + 1 * 65536) by lia.
    rewrite Z_mod_plus_full, Z.mod_small by lia. lia.
Qed.

Lemma lengthField_value (b0 b1 : byte) :
  lengthField b0 b1 =
    let u := byte.unsigned b0 + 256 * byte.unsigned b1 in
    if u <? 32768 then u else u - 65536.
Proof.
  unfold lengthField. rewrite le_combine_two. cbv zeta.
  apply int16_unsigned.
  pose proof (byte.unsigned_range b0). pose proof (byte.unsigned_range b1).
  change (2 ^ 8) with 256 in *. lia.
Qed.

(** X5: a length field is negative, and so ends the block stream, exactly
    when the top bit of its second byte is set; the first byte plays no
    part. *)
Theorem lengthField_negative_iff (b0 b1 : byte) :
  lengthField b0 b1 < 0 <-> 128 <= byte.unsigned b1.
Proof.
  rewrite lengthField_value. cbv zeta.
  pose proof (byte.unsigned_range b0). pose proof (byte.unsigned_range b1).
  change (2 ^ 8) with 256 in *.
  destruct (Z.ltb_spec (byte.unsigned b0 + 256 * byte.unsigned b1) 32768); lia.
Qed.

Lemma lengthField_of_int16 (n : Z) :
  - 32768 <= n <= 32767 ->
  lengthField (byte.of_Z n) (byte.of_Z (Z.shiftr n 8)) = n.
Proof.
  intros Hn. unfold lengthField.
  change [byte.of_Z n; byte.of_Z (Z.shiftr n 8)] with (le_split 2 n).
  rewrite le_combine_split. change (Z.of_nat 2 * 8) with 16.
  unfold GoInt.int16.
  rewrite <- (GoIntFacts.swrap_small 16 n) at 2
    by (change (2 ^ (16 - 1)) with 32768; lia).
  unfold GoInt.swrap. f_equal. change (2 ^ (16 - 1)) with 32768.
  now rewrite Zplus_mod_idemp_l.
Qed.

(** X6: the length field reads back every [int16] from its two-byte
    little-endian encoding, so every block length from 0 to 32767 and
    every negative footer value can be written. *)
Theorem lengthField_le_split (n : Z) :
  - 32768 <= n <= 32767 ->
  lengthField (byte.of_Z n) (byte.of_Z (Z.shiftr n 8)) = n /\
  le_split 2 n = [byte.of_Z n; byte.of_Z (Z.shiftr n 8)].
Proof. intros Hn. split; [now apply lengthField_of_int16 | reflexivity]. Qed.

Lemma lengthField_le_split_witness :
  lengthField (byte.of_Z (-1)) (byte.of_Z (Z.shiftr (-1) 8)) = -1.
Proof. apply (proj1 (lengthField_le_split (-1) ltac:(lia))). Defined.

(** ** What a run of Decode can return *)

Section Outcomes.

Context {L : Type}.
Variable dll : Dll L.

Lemma readMagic_format_error (r : Reader) (e : error) :
fst (readMagic r) = Some e -> is_format_error e = true.
Proof.
unfold readMagic. destruct (ReadFull r HeaderLen) as [[header [e0|]] rd];
  cbn [fst]; [now intros [= <-]|].
destruct (negb (length header =? HeaderLen)%nat); [now intros [= <-]|].
destruct (negb (bytes_eqb header HeaderBytes)); [now intros [= <-] | discriminate].
Qed.

Lemma checkHeader_format_error (r : Reader) (e : error) :
fst (checkHeader r) = Some e -> is_format_error e = true.
Proof.
rewrite checkHeader_unfold. destruct r as [|b r0]; [now intros [= <-]|].
destruct (Byte.eqb b STX); apply readMagic_format_error.
Qed.

Lemma decode_not_ok_inv (h : Z) (inData : list byte) (n : Z) (outData : list byte)
  (nByte : Z) (w : world L) :
match fst (decode dll h inData n outData nByte w) with
| Ok _ => True
| Err e => exists d, e = ErrDll d
| Panic p => p = IndexOutOfRange 0 0
end.
Proof.
unfold decode. destruct (FindProc dll "Decode"); cbn [fst]; [now eexists|].
destruct inData as [|i0 inData]; cbn [fst]; [reflexivity|].
destruct outData as [|o0 outData]; cbn [fst]; [reflexivity|].
destruct (Call_Decode dll h (i0 :: inData) n (o0 :: outData) nByte (lib w))
  as [[[written count] [e|]] l]; cbn [fst]; [now eexists | exact I].
Qed.

Lemma decodeAndAppend_err_inv (h : Z) (s : lstate L) (inData : list byte)
  (n nByte : Z) (rd inb' : list byte) (e : error) (w' : world L) :
decodeAndAppend dll h s inData n nByte rd inb' = inr (Err e, w') ->
exists d, e = ErrDll d.
Proof.
unfold decodeAndAppend.
pose proof (decode_not_ok_inv h inData n (buf s) nByte (wld s)) as Hd.
destruct (decode dll h inData n (buf s) nByte (wld s)) as [[[len buf']|e0|p] w1];
  cbn [fst] in Hd.
- destruct (slice_to buf' len); discriminate.
- now intros [= <- <-].
- discriminate.
Qed.

Lemma decodeAndAppend_panic_inv (h : Z) (s : lstate L) (inData : list byte)
  (n nByte : Z) (rd inb' : list byte) (p : panic) (w' : world L) :
decodeAndAppend dll h s inData n nByte rd inb' = inr (Panic p, w') ->
p = IndexOutOfRange 0 0 \/
exists len,
  p = SliceBoundsOutOfRange len (Z.of_nat (length (buf s))) /\
  (len < 0 \/ Z.of_nat (length (buf s)) < len).
Proof.
unfold decodeAndAppend.
pose proof (decode_not_ok_inv h inData n (buf s) nByte (wld s)) as Hd.
destruct (decode dll h inData n (buf s) nByte (wld s)) as [[[len buf']|e0|p0] w1] eqn:Ed;
  cbn [fst] in Hd.
- apply decode_ok_inv in Ed. destruct Ed as (_ & _ & Hl & _).
  destruct (slice_to buf' len) as [p1|frame] eqn:Es; [|discriminate].
  apply slice_to_panic in Es. destruct Es as [Hb ->]. rewrite Hl in *.
  intros [= <- <-]. right. now exists len.
- discriminate.
- intros [= <- <-]. now left.
Qed.

Lemma step_err_inv (h : Z) (s : lstate L) (e : error) (w' : world L) :
step dll h s = inr (Err e, w') ->
e = ErrReadBlockSize ErrUnexpectedEOF \/
e = ErrReadBlock ErrUnexpectedEOF \/
exists d, e = ErrDll d.
Proof.
rewrite step_eq. destruct (reader s) as [|b0 [|b1 rest]]; [discriminate| |].
- intros [= <- <-]. now left.
- cbv zeta. destruct (lengthField b0 b1 <? 0); [discriminate|].
  destruct (lengthField b0 b1 =? 0).
  + intros H. right. right. now apply decodeAndAppend_err_inv in H.
  + destruct rest as [|r0 rest']; [discriminate|].
    destruct (Z.of_nat (length (r0 :: rest')) <? lengthField b0 b1).
    * intros [= <- <-]. right. now left.
    * intros H. right. right. now apply decodeAndAppend_err_inv in H.
Qed.

Lemma step_panic_inv (h : Z) (s : lstate L) (p : panic) (w' : world L) :
step dll h s = inr (Panic p, w') ->
p = IndexOutOfRange 0 0 \/
exists len,
  p = SliceBoundsOutOfRange len (Z.of_nat (length (buf s))) /\
  (len < 0 \/ Z.of_nat (length (buf s)) < len).
Proof.
rewrite step_eq. destruct (reader s) as [|b0 [|b1 rest]]; try discriminate.
cbv zeta. destruct (lengthField b0 b1 <? 0); [discriminate|].
destruct (lengthField b0 b1 =? 0); [apply decodeAndAppend_panic_inv|].
destruct rest as [|r0 rest']; [discriminate|].
destruct (Z.of_nat (length (r0 :: rest')) <? lengthField b0 b1); [discriminate|].
apply decodeAndAppend_panic_inv.
Qed.

Lemma createDecoder_failure (w : world L) : dll_failure (fst (createDecoder dll w)).
Proof.
unfold createDecoder. destruct (FindProc dll "CreateDecoder"); [now eexists|].
destruct (Call_CreateDecoder dll (lib w)) as [[h [e|]] l]; [now eexists | exact I].
Qed.

Lemma setSampleRate_failure (h v : Z) (w : world L) :
dll_failure (fst (setSampleRate dll h v w)).
Proof.
unfold setSampleRate. destruct (FindProc dll "setSampleRate"); [now eexists|].
destruct (Call_setSampleRate dll h v (lib w)) as [[e|] l]; [now eexists | exact I].
Qed.

Lemma setFramesPerPacket_failure (h v : Z) (w : world L) :
dll_failure (fst (setFramesPerPacket dll h v w)).
Proof.
unfold setFramesPerPacket. destruct (FindProc dll "setFramesPerPacket"); [now eexists|].
destruct (Call_setFramesPerPacket dll h v (lib w)) as [[e|] l]; [now eexists | exact I].
Qed.

(** Every return of [Decode]: a refused header, a failed set-up of the
  session, or what the pass that leaves the loop returns. *)
Lemma Decode_cases (src : Reader) (w : world L) (r : outcome (list byte))
  (w' : world L) :
Decode dll src w = Some (r, w') ->
(exists e, fst (checkHeader src) = Some e /\ r = Err e /\ w' = w) \/
(exists d, r = Err (ErrDll d)) \/
(exists h s, during dll src w h s /\ step dll h s = inr (r, w')).
Proof.
unfold Decode, andThen.
destruct (checkHeader src) as [[e|] rd] eqn:Hh.
{ intros [= <- <-]. left. now exists e. }
pose proof (createDecoder_failure w) as F1.
destruct (createDecoder dll w) as [[h|e1|p1] w1] eqn:Hc; cbn [fst dll_failure] in F1;
  [|destruct F1 as [d ->]; intros [= <- <-]; right; left; now exists d
   |contradiction].
pose proof (setSampleRate_failure h 16000 w1) as F2.
destruct (setSampleRate dll h 16000 w1) as [[u1|e2|p2] w2] eqn:Hr;
  cbn [fst dll_failure] in F2;
  [|destruct F2 as [d ->]; intros [= <- <-]; right; left; now exists d
   |contradiction].
pose proof (setFramesPerPacket_failure h 1 w2) as F3.
destruct (setFramesPerPacket dll h 1 w2) as [[u2|e3|p3] w3] eqn:Hf;
  cbn [fst dll_failure] in F3;
  [|destruct F3 as [d ->]; intros [= <- <-]; right; left; now exists d
   |contradiction].
intros H. apply (loop_spec dll h) in H; [|cbn; lia].
destruct H as (s & Hreach & Hs). right. right. exists h, s.
split; [|exact Hs]. now exists rd, w1, w2, w3, u1, u2.
Qed.

End Outcomes.

(** X7: [Decode] never returns "invalid block": the test of lines 144-146
    is dead, since a block read without error has the length asked for.  A
    header error it returns is the one [checkHeader] gave, and then the
    library has not been touched.  A slice panic it raises is always that
    of [buf[:length]]: capacity 3840 and a length outside 0..3840. *)
Theorem Decode_never_invalid_block (L : Type) (dll : Dll L) (src : Reader)
    (w w' : world L) (r : outcome (list byte)) :
  Decode dll src w = Some (r, w') ->
  r <> Err ErrInvalidBlock /\
  (forall e, r = Err e -> is_format_error e = true ->
     fst (checkHeader src) = Some e /\ w' = w) /\
  (forall len capacity, r = Panic (SliceBoundsOutOfRange len capacity) ->
     capacity = 3840 /\ (len < 0 \/ 3840 < len)).
Proof.
  intros H. apply Decode_cases in H.
  destruct H as [(e0 & Hc & -> & ->) | [(d & ->) | (h & s & Hd & Hs)]].
  - split; [|split].
    + intros [= ->]. apply checkHeader_format_error in Hc. discriminate.
    + intros e [= <-] _. now split.
    + discriminate.
  - split; [discriminate|]. split; [|discriminate].
    intros e [= <-]. discriminate.
  - split; [|split].
    + intros ->. apply step_err_inv in Hs.
      destruct Hs as [Hs | [Hs | (d & Hs)]]; discriminate.
    + intros e -> Hf. apply step_err_inv in Hs.
      destruct Hs as [-> | [-> | (d & ->)]]; discriminate.
    + intros len capacity ->. apply step_panic_inv in Hs.
      rewrite (during_buf_length dll src w h s Hd) in Hs.
      destruct Hs as [Hs | (len' & [= -> ->] & Hb)]; [discriminate|].
      now split.
Qed.

Lemma Decode_never_invalid_block_witness :
  fst (checkHeader (list_byte_of_string "#!SILK_V2x")) =
    Some (ErrHeaderMismatch (list_byte_of_string "#!SILK_V2")) /\
  w0 = w0.
Proof.
  exact (proj1 (proj2 (Decode_never_invalid_block unit (stubDll 10)
                         (list_byte_of_string "#!SILK_V2x") w0 w0
                         (Err (ErrHeaderMismatch (list_byte_of_string "#!SILK_V2")))
                         eq_refl))
           (ErrHeaderMismatch (list_byte_of_string "#!SILK_V2")) eq_refl eq_refl).
Defined.

(** X8: a block of declared length zero is never decoded: at such a length
    field [Decode] returns the error of looking up the library's [Decode]
    when that fails, and otherwise panics with index out of range, without
    any call of the library. *)
Theorem zero_length_block (L : Type) (dll : Dll L) (src : Reader) (w : world L)
    (h : Z) (s : lstate L) (b0 b1 : byte) (rest : list byte) :
  during dll src w h s ->
  reader s = b0 :: b1 :: rest ->
  lengthField b0 b1 = 0 ->
  Decode dll src w =
    Some (match FindProc dll "Decode" with
          | Some e => Err (ErrDll e)
          | None => Panic (IndexOutOfRange 0 0)
          end, wld s).
Proof.
  intros Hd Hr Hz. apply (during_Decode dll src w h s); [exact Hd|].
  rewrite step_eq, Hr. cbv zeta. rewrite Hz. cbn [Z.ltb Z.eqb Z.compare].
  unfold decodeAndAppend. rewrite decode_empty.
  now destruct (FindProc dll "Decode").
Qed.

Lemma zero_length_block_witness :
  Decode (stubDll 10) (HeaderBytes ++ [Byte.x00; Byte.x00] ++ footer) w0
  = Some (Panic (IndexOutOfRange 0 0),
          {| lib := tt;
             trace := [CallCreateDecoder 7; CallSetSampleRate 7 16000;
                       CallSetFramesPerPacket 7 1] |}).
Proof.
  refine (zero_length_block unit (stubDll 10)
    (HeaderBytes ++ [Byte.x00; Byte.x00] ++ footer) w0 7
    (entry ([Byte.x00; Byte.x00] ++ footer)
       {| lib := tt;
          trace := [CallCreateDecoder 7; CallSetSampleRate 7 16000;
                    CallSetFramesPerPacket 7 1] |})
    Byte.x00 Byte.x00 footer _ _ _).
  - do 4 eexists. exists tt, tt.
    repeat (split; [reflexivity|]). apply reach_here.
  - reflexivity.
  - reflexivity.
Defined.

(** ** The output and the buffers along a run *)

Lemma int16_double_even (c : Z) : Z.even (GoInt.int16 (c * 2)) = true.
Proof.
  unfold GoInt.int16, GoInt.swrap.
  change (2 ^ (16 - 1)) with 32768. change (2 ^ 16) with 65536.
  rewrite Z.mod_eq by lia.
  replace (c * 2 + 32768 - 65536 * ((c * 2 + 32768) / 65536) - 32768)
    with (2 * (c - 32768 * ((c * 2 + 32768) / 65536))) by lia.
  apply Z.even_even.
Qed.

Section Invariants.

Context {L : Type}.
Variable dll : Dll L.
Variable h : Z.

(** What a pass that goes on does to the output, the reader and [in]. *)
Lemma step_growth (s s' : lstate L) :
step dll h s = inl s' ->
exists frame,
  out s' = out s ++ frame /\
  Z.even (Z.of_nat (length frame)) = true /\
  (length frame <= length (buf s))%nat /\
  (length (reader s') + 3 <= length (reader s))%nat /\
  (length (inb s) <= length (inb s'))%nat /\
  Z.of_nat (length (inb s')) <= Z.max (Z.of_nat (length (inb s))) 32767.
Proof.
intros H. pose proof (step_inl_inv dll h s s' H) as Hinv.
destruct Hinv as (b0 & b1 & rest & len & frame & Hr & Hn & Hr' & Hd & Hs & Ho).
exists frame. split; [exact Ho|].
apply decode_ok_inv in Hd. destruct Hd as (_ & Hlen & Hbl & _).
pose proof (slice_to_length _ _ _ Hs) as Hfl.
apply slice_to_ok in Hs. destruct Hs as [Hb _].
split; [rewrite Hfl, Hlen; apply int16_double_even|].
split; [lia|].
split; [rewrite Hr, Hr', length_skipn; cbn [length]; lia|].
pose proof (lengthField_range b0 b1) as Hrange.
assert (Hin : inb s' = inbAfter s (lengthField b0 b1)
                         (firstn (Z.to_nat (lengthField b0 b1)) rest)).
{ rewrite step_eq, Hr in H. cbv zeta in H.
  destruct (Z.ltb_spec (lengthField b0 b1) 0); [lia|].
  destruct (Z.eqb_spec (lengthField b0 b1) 0); [lia|].
  destruct rest as [|r0 rest0]; [discriminate|].
  destruct (Z.ltb_spec (Z.of_nat (length (r0 :: rest0))) (lengthField b0 b1));
    [discriminate|].
  apply decodeAndAppend_inl in H. destruct H as (_ & _ & _ & _ & _ & Hi & _).
  exact Hi. }
rewrite Hin. unfold inbAfter. rewrite length_overwrite.
destruct (Z.ltb_spec (Z.of_nat (length (inb s))) (lengthField b0 b1)).
- rewrite repeat_length. lia.
- lia.
Qed.

Lemma reach_growth (s s' : lstate L) :
reach dll h s s' ->
exists suffix,
  out s' = out s ++ suffix /\
  Z.even (Z.of_nat (length suffix)) = true /\
  (3 * length suffix + length (buf s) * length (reader s')
     <= length (buf s) * length (reader s))%nat /\
  (length (inb s) <= length (inb s'))%nat /\
  Z.of_nat (length (inb s')) <= Z.max (Z.of_nat (length (inb s))) 32767.
Proof.
induction 1 as [s|s s1 s' Hs Hreach IH].
- exists []. rewrite app_nil_r. repeat split; cbn; lia.
- destruct IH as (suf & Ho & He & Hb & Hi1 & Hi2).
  destruct (step_growth s s1 Hs) as (frame & Ho1 & He1 & Hf & Hr & Hj1 & Hj2).
  rewrite (step_buf_length dll h s s1 Hs) in Hb.
  exists (frame ++ suf). split; [now rewrite Ho, Ho1, app_assoc|].
  split; [|split; [|split]].
  + rewrite length_app, Nat2Z.inj_add, Z.even_add, He, He1. reflexivity.
  + rewrite length_app. nia.
  + lia.
  + lia.
Qed.

(** Whole blocks are read the same when more bytes follow. *)
Lemma step_more (s s' : lstate L) (extra : list byte) :
step dll h s = inl s' ->
step dll h (with_more s extra) = inl (with_more s' extra).
Proof.
intros H. rewrite step_eq in H. rewrite step_eq. cbn [with_more reader].
destruct (reader s) as [|b0 [|b1 rest]]; try discriminate.
cbn [app]. cbv zeta in *.
destruct (Z.ltb_spec (lengthField b0 b1) 0) as [|Hn0]; [discriminate|].
destruct (Z.eqb_spec (lengthField b0 b1) 0) as [Hz|Hnz].
{ apply decodeAndAppend_inl in H. destruct H as (len & frame & Hd & _).
  rewrite decode_empty in Hd. destruct (FindProc dll "Decode"); discriminate. }
destruct rest as [|r0 rest0]; [discriminate|].
destruct (Z.ltb_spec (Z.of_nat (length (r0 :: rest0))) (lengthField b0 b1))
  as [|Hge]; [discriminate|].
change ((r0 :: rest0) ++ extra) with (r0 :: (rest0 ++ extra)).
change (r0 :: (rest0 ++ extra)) with ((r0 :: rest0) ++ extra).
destruct ((r0 :: rest0) ++ extra) as [|x xs] eqn:Ex; [discriminate|].
rewrite <- Ex.
destruct (Z.ltb_spec (Z.of_nat (length ((r0 :: rest0) ++ extra))) (lengthField b0 b1))
  as [Hlt|_]; [rewrite length_app in Hlt; lia|].
rewrite firstn_app_le, skipn_app_le by lia.
revert H. unfold decodeAndAppend, inbAfter. cbn [with_more buf wld out inb].
destruct (decode dll h _ _ (buf s) _ (wld s)) as [[[len buf']| |] w1];
  try discriminate.
destruct (slice_to buf' len); [discriminate|].
intros [= <-]. reflexivity.
Qed.

Lemma reach_more (s s' : lstate L) (extra : list byte) :
reach dll h s s' -> reach dll h (with_more s extra) (with_more s' extra).
Proof.
induction 1 as [s|s s1 s' Hs _ IH]; [constructor|].
eapply reach_pass; [apply step_more; exact Hs | exact IH].
Qed.

End Invariants.

Lemma during_more {L : Type} (dll : Dll L) (src : Reader) (w : world L) (h : Z)
    (s : lstate L) (extra : list byte) :
  during dll src w h s -> during dll (src ++ extra) w h (with_more s extra).
Proof.
  intros (rd & w1 & w2 & w3 & u1 & u2 & Hh & Hc & Hr & Hf & Hreach).
  exists (rd ++ extra), w1, w2, w3, u1, u2.
  repeat (split; [try assumption|]).
  - apply checkHeader_ok_inv in Hh. destruct Hh as [-> | ->].
    + rewrite <- app_assoc. apply checkHeader_magic.
    + cbn [app]. rewrite <- app_assoc. apply checkHeader_stx_magic.
  - apply (reach_more dll h _ _ extra) in Hreach. exact Hreach.
Qed.

Lemma during_reader_length {L : Type} (dll : Dll L) (src : Reader) (w : world L)
    (h : Z) (s : lstate L) :
  during dll src w h s ->
  exists rd w3,
    (length rd + 9 <= length src)%nat /\ reach dll h (entry rd w3) s.
Proof.
  intros (rd & w1 & w2 & w3 & u1 & u2 & Hh & _ & _ & _ & Hreach).
  exists rd, w3. split; [|exact Hreach].
  apply checkHeader_ok_inv in Hh.
  destruct Hh as [-> | ->]; cbn [length]; rewrite length_app; cbn; lia.
Qed.

(** The output at the head of the loop: whole samples, bounded by what has
    been read of the stream. *)
Lemma during_output_even_bounded {L : Type} (dll : Dll L) (src : Reader)
    (w : world L) (h : Z) (s : lstate L) :
  during dll src w h s ->
  Z.even (Z.of_nat (length (out s))) = true /\
  (length (out s) <= 1280 * (length src - 9))%nat.
Proof.
  intros Hd.
  destruct (during_reader_length dll src w h s Hd) as (rd & w3 & Hl & Hreach).
  apply reach_growth in Hreach.
  destruct Hreach as (suf & Ho & He & Hb & _).
  cbn [entry out buf reader] in *. rewrite Ho. cbn [app].
  split; [exact He|].
  change (length (repeat Byte.x00 (Z.to_nat (frameSize * 2)))) with 3840%nat in Hb.
  lia.
Qed.

(** X9: the samples [Decode] returns are whole 16-bit samples, and at most
    1280 times as many bytes as the stream has after its nine-byte magic:
    every block takes at least three bytes of the stream and yields at most
    3840 bytes. *)
Theorem Decode_output_size (L : Type) (dll : Dll L) (src : Reader)
    (w w' : world L) (o : list byte) :
  Decode dll src w = Some (Ok o, w') ->
  Z.even (Z.of_nat (length o)) = true /\
  (length o <= 1280 * (length src - 9))%nat.
Proof.
  intros H. apply Decode_ok_during in H. destruct H as (h & s & Hd & Hs).
  apply step_ok_iff in Hs. destruct Hs as (_ & -> & _).
  exact (during_output_even_bounded dll src w h s Hd).
Qed.

Lemma Decode_output_size_witness :
  Z.even (Z.of_nat (length (repeat Byte.xab 20))) = true /\
  (length (repeat Byte.xab 20)
     <= 1280 * (length (HeaderBytes ++ block4 ++ footer) - 9))%nat.
Proof.
  exact (Decode_output_size unit (stubDll 10) (HeaderBytes ++ block4 ++ footer) w0
           {| lib := tt;
              trace := [CallCreateDecoder 7; CallSetSampleRate 7 16000;
                        CallSetFramesPerPacket 7 1;
                        CallDecode 7 [Byte.x01; Byte.x02; Byte.x03; Byte.x04] 4] |}
           (repeat Byte.xab 20) eq_refl).
Defined.



(** X11: bytes after a negative length field play no part: when the run on
    [src] comes to a negative length field, the run on [src] followed by
    any further bytes returns the same samples and leaves the same world. *)
Theorem trailing_bytes_ignored (L : Type) (dll : Dll L) (src : Reader)
    (w : world L) (h : Z) (s : lstate L) (b0 b1 : byte) (rest extra : list byte) :
  during dll src w h s ->
  reader s = b0 :: b1 :: rest ->
  lengthField b0 b1 < 0 ->
  Decode dll src w = Some (Ok (out s), wld s) /\
  Decode dll (src ++ extra) w = Some (Ok (out s), wld s).
Proof.
  intros Hd Hr Hn. split.
  - apply (during_Decode dll src w h s); [exact Hd|].
    apply step_ok_iff. rewrite Hr. split; [now apply negative_length | now split].
  - apply (during_Decode dll (src ++ extra) w h (with_more s extra));
      [now apply during_more|].
    apply step_ok_iff. cbn [with_more reader out wld]. rewrite Hr. cbn [app].
    split; [now apply negative_length | now split].
Qed.

Lemma trailing_bytes_ignored_witness :
  Decode (stubDll 10) ((HeaderBytes ++ footer) ++ block4) w0
  = Some (Ok [],
          {| lib := tt;
             trace := [CallCreateDecoder 7; CallSetSampleRate 7 16000;
                       CallSetFramesPerPacket 7 1] |}).
Proof.
  refine (proj2 (trailing_bytes_ignored unit (stubDll 10) (HeaderBytes ++ footer) w0 7
    (entry footer
       {| lib := tt;
          trace := [CallCreateDecoder 7; CallSetSampleRate 7 16000;
                    CallSetFramesPerPacket 7 1] |})
    Byte.xff Byte.xff [] block4 _ _ _)).
  - do 4 eexists. exists tt, tt.
    repeat (split; [reflexivity|]). apply reach_here.
  - reflexivity.
  - vm_compute. reflexivity.
Defined.

(** ** Framed blocks *)

Section Framing.

Context {L : Type}.
Variable dll : Dll L.
Variable h : Z.

Lemma decode_succeeds (inData : list byte) (n : Z) (outData : list byte)
  (nByte : Z) (w : world L) :
decodes_ok dll -> inData <> [] -> outData <> [] ->
exists len buf' w',
  decode dll h inData n outData nByte w = (Ok (len, buf'), w').
Proof.
intros [Hfind Hcall] Hi Ho. unfold decode. rewrite Hfind.
destruct inData as [|i0 inData]; [congruence|].
destruct outData as [|o0 outData]; [congruence|].
destruct (Hcall h (i0 :: inData) n (o0 :: outData) nByte (lib w)) as [Herr _].
destruct (Call_Decode dll h (i0 :: inData) n (o0 :: outData) nByte (lib w))
  as [[[written count] err] l].
cbn [fst snd] in Herr. subst err. now eexists _, _, _.
Qed.

(** One pass over a framed block with a library that decodes everything. *)
Lemma step_whole_block (s : lstate L) (p rest' : list byte) :
decodes_ok dll -> payload_ok p ->
length (buf s) = 3840%nat ->
reader s = frameBlock p ++ rest' ->
exists s1,
  step dll h s = inl s1 /\
  reader s1 = rest' /\
  trace (wld s1) = trace (wld s) ++ [CallDecode h p (Z.of_nat (length p))].
Proof.
intros Hok [Hne Hlen] Hbuf Hr.
assert (Hpos : 0 < Z.of_nat (length p)) by (destruct p; [congruence | cbn; lia]).
unfold frameBlock in Hr. rewrite !le_split_S in Hr.
change (le_split 0 _) with (@nil byte) in Hr. cbn [app] in Hr.
rewrite step_eq, Hr. cbv zeta. rewrite lengthField_of_int16 by lia.
destruct (Z.ltb_spec (Z.of_nat (length p)) 0); [lia|].
destruct (Z.eqb_spec (Z.of_nat (length p)) 0); [lia|].
destruct (p ++ rest') as [|x xs] eqn:Ex; [destruct p; [congruence | discriminate]|].
rewrite <- Ex.
destruct (Z.ltb_spec (Z.of_nat (length (p ++ rest'))) (Z.of_nat (length p)))
  as [Hlt|_]; [rewrite length_app in Hlt; lia|].
rewrite Nat2Z.id, firstn_app_len, skipn_app_len.
unfold decodeAndAppend.
assert (Hb : buf s <> []) by (intros E; rewrite E in Hbuf; discriminate).
destruct (decode_succeeds p (Z.of_nat (length p)) (buf s) (Z.of_nat (length p))
            (wld s) Hok Hne Hb) as (len & buf' & w1 & Hd).
rewrite Hd. apply decode_ok_inv in Hd. destruct Hd as (_ & Hl & Hbl & Ht).
destruct Hok as [_ Hcall].
destruct (Hcall h p (Z.of_nat (length p)) (buf s) (Z.of_nat (length p)) (lib (wld s)))
  as [_ Hc].
rewrite GoIntFacts.int16_small in Hl by lia.
destruct (slice_to buf' len) as [pn|frame] eqn:Es.
- apply slice_to_panic in Es. rewrite Hbl, Hbuf in Es. lia.
- eexists. split; [reflexivity|]. cbn [reader wld]. now split.
Qed.

Lemma reach_framed_blocks (ps : list (list byte)) :
decodes_ok dll -> Forall payload_ok ps ->
forall (s : lstate L) (tail : list byte),
  length (buf s) = 3840%nat ->
  reader s = frameBlocks ps ++ tail ->
  exists s',
    reach dll h s s' /\
    reader s' = tail /\
    trace (wld s') =
      trace (wld s) ++ map (fun p => CallDecode h p (Z.of_nat (length p))) ps.
Proof.
intros Hok Hps. induction Hps as [|p ps Hp _ IH]; intros s tail Hbuf Hr.
- exists s. split; [constructor|]. split; [exact Hr|]. cbn. now rewrite app_nil_r.
- unfold frameBlocks in Hr. cbn [map concat] in Hr. rewrite <- app_assoc in Hr.
  destruct (step_whole_block s p _ Hok Hp Hbuf Hr) as (s1 & Hs & Hr1 & Ht1).
  assert (Hbuf1 : length (buf s1) = 3840%nat)
    by (rewrite (step_buf_length dll h s s1 Hs); exact Hbuf).
  destruct (IH s1 tail Hbuf1 Hr1) as (s' & Hreach & Hr' & Ht').
  exists s'. split; [eapply reach_pass; eassumption|]. split; [exact Hr'|].
  rewrite Ht', Ht1, <- app_assoc. reflexivity.
Qed.

End Framing.

(** X12: the loop undoes the framing of blocks.  When what is left of the
    stream is a sequence of framed payloads (each not empty and of at most
    32767 bytes, so also those longer than the 1024 bytes [in] starts
    with), followed by a clean end, and the library decodes every block
    with a sample count in 0..1920, then
    [Decode] succeeds and the library was handed exactly those payloads,
    whole and in order, one call each. *)
Theorem framed_blocks_decoded (L : Type) (dll : Dll L) (src : Reader)
    (w : world L) (h : Z) (s : lstate L) (ps : list (list byte))
    (tail : list byte) :
  decodes_ok dll ->
  Forall payload_ok ps ->
  clean_end tail ->
  during dll src w h s ->
  reader s = frameBlocks ps ++ tail ->
  exists o w',
    Decode dll src w = Some (Ok o, w') /\
    trace w' =
      trace (wld s) ++ map (fun p => CallDecode h p (Z.of_nat (length p))) ps.
Proof.
  intros Hok Hps Htail Hd Hr.
  pose proof (during_buf_length dll src w h s Hd) as Hbuf.
  destruct (reach_framed_blocks dll h ps Hok Hps s tail Hbuf Hr)
    as (s' & Hreach & Hr' & Ht).
  exists (out s'), (wld s'). split; [|exact Ht].
  apply (during_Decode dll src w h s').
  - destruct Hd as (rd & w1 & w2 & w3 & u1 & u2 & Hh & Hc & Hsr & Hf & Hre).
    exists rd, w1, w2, w3, u1, u2. repeat (split; [assumption|]).
    eapply reach_trans; eassumption.
  - apply step_ok_iff. rewrite Hr'. now split.
Qed.

(** Two blocks and the footer. *)
Lemma framed_blocks_decoded_witness :
  exists o w',
    Decode (stubDll 10)
      (HeaderBytes ++ frameBlocks [[Byte.x01; Byte.x02; Byte.x03]; [Byte.x04]] ++ footer)
      w0 = Some (Ok o, w') /\
    trace w' =
      [CallCreateDecoder 7; CallSetSampleRate 7 16000; CallSetFramesPerPacket 7 1]
        ++ [CallDecode 7 [Byte.x01; Byte.x02; Byte.x03] 3; CallDecode 7 [Byte.x04] 1].
Proof.
  refine (framed_blocks_decoded unit (stubDll 10)
    (HeaderBytes ++ frameBlocks [[Byte.x01; Byte.x02; Byte.x03]; [Byte.x04]] ++ footer)
    w0 7
    (entry (frameBlocks [[Byte.x01; Byte.x02; Byte.x03]; [Byte.x04]] ++ footer)
       {| lib := tt;
          trace := [CallCreateDecoder 7; CallSetSampleRate 7 16000;
                    CallSetFramesPerPacket 7 1] |})
    [[Byte.x01; Byte.x02; Byte.x03]; [Byte.x04]] footer
    _ _ _ _ _).
  - split; [reflexivity|]. intros. split; [reflexivity|].
    vm_compute. split; discriminate.
  - repeat constructor; try discriminate; cbn; lia.
  - apply negative_length. vm_compute. reflexivity.
  - do 4 eexists. exists tt, tt.
    repeat (split; [reflexivity|]). apply reach_here.
  - reflexivity.
Defined.

(** ** The container header *)

(** X13: whatever the samples, channel count and sample rate, the container
    begins with "RIFF", has "WAVE" and "fmt " at bytes 8-15, a format chunk
    size of 16, format tag 1 (PCM), 16 bits per sample at bytes 34-35 and
    "data" at bytes 36-39. *)
Theorem pcmToWav_fixed_fields (dst : list byte) (numchannel saplerate : Z) :
  let res := pcmToWav dst numchannel saplerate in
  firstn 4 res = list_byte_of_string "RIFF" /\
  firstn 8 (skipn 8 res) = list_byte_of_string "WAVEfmt " /\
  firstn 4 (skipn 16 res) = le_split 4 16 /\
  firstn 2 (skipn 20 res) = le_split 2 1 /\
  firstn 2 (skipn 34 res) = le_split 2 16 /\
  firstn 4 (skipn 36 res) = list_byte_of_string "data".
Proof.
  cbv zeta.
  change (firstn 4 (pcmToWav dst numchannel saplerate))
    with (firstn 4 (skipn 0 (pcmToWav dst numchannel saplerate))).
  rewrite !pcmToWav_field by lia.
  unfold wavHeader. rewrite !le_split_4.
  repeat (split; [reflexivity|]). reflexivity.
Qed.

Lemma le_combine_le_split_small (n : nat) (v : Z) :
  0 <= v < 2 ^ (Z.of_nat n * 8) -> le_combine (le_split n v) = v.
Proof. intros H. rewrite le_combine_split. now apply Z.mod_small. Qed.

(** X14: inside the ranges of its fields the header reads back what went
    in: for a channel count below 256, a sample rate and a byte rate below
    2^32 and fewer than 2^32 - 36 bytes of samples, the fields decode to the
    channel count, the sample rate, twice their product, the length of the
    samples plus 36, and the length of the samples. *)
Theorem pcmToWav_fields_read_back (dst : list byte) (numchannel saplerate : Z) :
  0 <= numchannel < 256 ->
  0 <= saplerate < 2 ^ 32 ->
  2 * saplerate * numchannel < 2 ^ 32 ->
  Z.of_nat (length dst) + 36 < 2 ^ 32 ->
  let res := pcmToWav dst numchannel saplerate in
  le_combine (firstn 2 (skipn 22 res)) = numchannel /\
  le_combine (firstn 4 (skipn 24 res)) = saplerate /\
  le_combine (firstn 4 (skipn 28 res)) = 2 * saplerate * numchannel /\
  le_combine (firstn 4 (skipn 4 res)) = Z.of_nat (length dst) + 36 /\
  le_combine (firstn 4 (skipn 40 res)) = Z.of_nat (length dst).
Proof.
  intros Hc Hs Hb Hl. cbv zeta.
  destruct (wavHeader_fields (Z.of_nat (length dst)) numchannel saplerate)
    as (H4 & H22 & H24 & H28 & _ & H40).
  rewrite !pcmToWav_field by lia. rewrite H4, H22, H24, H28, H40.
  change (2 ^ 32) with 4294967296 in *.
  assert (Hbr : byteRate_of saplerate numchannel = 2 * saplerate * numchannel).
  { rewrite byteRate_of_exact by (try lia; change (2 ^ 63) with 9223372036854775808; nia).
    replace (16 * saplerate * numchannel) with (2 * saplerate * numchannel * 8) by lia.
    apply Z.div_mul. lia. }
  rewrite Hbr.
  rewrite !le_combine_le_split_small
    by (change (2 ^ (Z.of_nat 4 * 8)) with 4294967296; lia).
  split; [|repeat split].
  change [byte.of_Z numchannel; Byte.x00]
    with ([byte.of_Z numchannel] ++ repeat Byte.x00 1).
  rewrite le_combine_app_0, le_combine_1, byte.unsigned_of_Z.
  unfold byte.wrap. change (2 ^ 8) with 256. apply Z.mod_small. lia.
Qed.

Lemma pcmToWav_fields_read_back_witness :
  le_combine (firstn 4 (skipn 28 (pcmToWav (repeat Byte.xab 20) 2 16000)))
    = 2 * 16000 * 2.
Proof.
  apply (pcmToWav_fields_read_back (repeat Byte.xab 20) 2 16000); cbn; lia.
Defined.

(** X15: in the header [pcmToWav] writes, when the sample rate and the byte
    rate fit their four-byte fields, the byte-rate field (bytes 28-31) is
    the sample-rate field (bytes 24-27) times the block-align field (bytes
    32-33) exactly when the channel count is 2: for any other channel count
    the three fields of the header disagree. *)
Theorem header_byte_rate_consistent_iff (dst : list byte)
    (numchannel saplerate : Z) :
  0 < saplerate < 2 ^ 32 ->
  0 <= numchannel ->
  2 * saplerate * numchannel < 2 ^ 32 ->
  let res := pcmToWav dst numchannel saplerate in
  le_combine (firstn 4 (skipn 28 res))
    = le_combine (firstn 4 (skipn 24 res)) * le_combine (firstn 2 (skipn 32 res))
  <-> numchannel = 2.
Proof.
  intros Hs Hc Hb. cbv zeta.
  destruct (wavHeader_fields (Z.of_nat (length dst)) numchannel saplerate)
    as (_ & _ & H24 & H28 & H32 & _).
  rewrite !pcmToWav_field by lia. rewrite H24, H28, H32.
  change (2 ^ 32) with 4294967296 in *.
  assert (Hbr : byteRate_of saplerate numchannel = 2 * saplerate * numchannel).
  { rewrite byteRate_of_exact by (try lia; change (2 ^ 63) with 9223372036854775808; nia).
    replace (16 * saplerate * numchannel) with (2 * saplerate * numchannel * 8) by lia.
    apply Z.div_mul. lia. }
  rewrite Hbr.
  rewrite !le_combine_le_split_small
    by (change (2 ^ (Z.of_nat 4 * 8)) with 4294967296; lia).
  change (le_combine (le_split 2 4)) with 4.
  split; [nia | intros ->; lia].
Qed.

Lemma header_byte_rate_consistent_iff_witness :
  le_combine (firstn 4 (skipn 28 (pcmToWav [] 2 16000)))
    = le_combine (firstn 4 (skipn 24 (pcmToWav [] 2 16000)))
      * le_combine (firstn 2 (skipn 32 (pcmToWav [] 2 16000))).
Proof.
  apply (proj2 (header_byte_rate_consistent_iff [] 2 16000 ltac:(cbn; lia)
                  ltac:(lia) ltac:(cbn; lia))).
  reflexivity.
Defined.

(** ** The conversion *)

(** X16: what a successful conversion returns is the 44-byte header
    followed by the decoded samples: at least 44 bytes, an even number of
    them, at most 44 + 1280 times the bytes of the stream after its magic,
    with byte rate 64000 (16000 Hz, two channels, 16 bits) and the data
    size field the number of bytes after the header (modulo 2^32). *)
Theorem SilkToWav_output (L : Type) (dll : Dll L) (src : Reader)
    (w w' : world L) (res : list byte) :
  SilkToWav dll src w = Some (Ok res, w') ->
  (44 <= length res <= 44 + 1280 * (length src - 9))%nat /\
  Z.even (Z.of_nat (length res)) = true /\
  firstn 4 (skipn 28 res) = le_split 4 64000 /\
  le_combine (firstn 4 (skipn 40 res)) = Z.of_nat (length res - 44) mod 2 ^ 32 /\
  exists data, Decode dll src w = Some (Ok data, w') /\ skipn 44 res = data.
Proof.
  unfold SilkToWav.
  destruct (Decode dll src w) as [[[data| |] wd]|] eqn:Ed; try discriminate.
  intros [= <- <-].
  assert (Hsize : Z.even (Z.of_nat (length data)) = true /\
                  (length data <= 1280 * (length src - 9))%nat).
  { pose proof Ed as Hdur. apply Decode_ok_during in Hdur.
    destruct Hdur as (h & s & Hd & Hs).
    apply step_ok_iff in Hs. destruct Hs as (_ & -> & _).
    exact (during_output_even_bounded dll src w h s Hd). }
  destruct Hsize as [Hev Hle].
  assert (Hlen : length (pcmToWav data 2 16000) = (44 + length data)%nat)
    by (now rewrite pcmToWav_layout, length_app, wavHeader_length).
  assert (Hskip : skipn 44 (pcmToWav data 2 16000) = data).
  { rewrite pcmToWav_layout.
    rewrite <- (wavHeader_length (Z.of_nat (length data)) 2 16000).
    apply skipn_app_len. }
  destruct (wavHeader_fields (Z.of_nat (length data)) 2 16000)
    as (_ & _ & _ & H28 & _ & H40).
  rewrite !pcmToWav_field by lia. rewrite H28, H40, Hlen, le_combine_split.
  split; [lia|]. split.
  - rewrite Nat2Z.inj_add, Z.even_add, Hev. reflexivity.
  - split; [reflexivity|]. split.
    + replace (44 + length data - 44)%nat with (length data) by lia. reflexivity.
    + now exists data.
Qed.

Lemma SilkToWav_output_witness :
  (44 <= length (pcmToWav (repeat Byte.xab 20) 2 16000)
      <= 44 + 1280 * (length (HeaderBytes ++ block4 ++ footer) - 9))%nat.
Proof.
  exact (proj1 (SilkToWav_output unit (stubDll 10) (HeaderBytes ++ block4 ++ footer)
                  w0
                  {| lib := tt;
                     trace := [CallCreateDecoder 7; CallSetSampleRate 7 16000;
                               CallSetFramesPerPacket 7 1;
                               CallDecode 7 [Byte.x01; Byte.x02; Byte.x03; Byte.x04] 4] |}
                  (pcmToWav (repeat Byte.xab 20) 2 16000) eq_refl)).
Defined.

(** ** What the library is handed *)

Section Calls.

Context {L : Type}.
Variable dll : Dll L.

Lemma decodeAndAppend_calls (h : Z) (s : lstate L) (inData : list byte)
  (n nByte : Z) (rd inb' : list byte) :
(inData <> [] -> n = Z.of_nat (length inData) /\ n <= 32767) ->
exists evs,
  Forall call_ok evs /\
  match decodeAndAppend dll h s inData n nByte rd inb' with
  | inl s' => trace (wld s') = trace (wld s) ++ evs
  | inr (_, w') => trace w' = trace (wld s) ++ evs
  end.
Proof.
intros Hin. unfold decodeAndAppend.
pose proof (decode_trace dll h inData n (buf s) nByte (wld s)) as Ht.
destruct inData as [|i0 inData].
- rewrite decode_empty in *. exists []. split; [constructor|].
  destruct (FindProc dll "Decode"); cbn [snd] in *; now rewrite app_nil_r.
- destruct (Hin ltac:(discriminate)) as [Hn Hle].
  destruct (decode dll h (i0 :: inData) n (buf s) nByte (wld s)) as [r w1].
  cbn [snd] in Ht.
  assert (He : exists evs, Forall call_ok evs /\ trace w1 = trace (wld s) ++ evs).
  { destruct Ht as [Ht|Ht].
    - exists []. split; [constructor | now rewrite app_nil_r].
    - eexists [_]. split; [|exact Ht]. constructor; [|constructor].
      cbn [call_ok]. split; [discriminate | now split]. }
  destruct He as (evs & Hok & Htr). exists evs. split; [exact Hok|].
  destruct r as [[len buf']| |]; try exact Htr.
  destruct (slice_to buf' len); exact Htr.
Qed.

Lemma step_calls (h : Z) (s : lstate L) :
exists evs,
  Forall call_ok evs /\
  match step dll h s with
  | inl s' => trace (wld s') = trace (wld s) ++ evs
  | inr (_, w') => trace w' = trace (wld s) ++ evs
  end.
Proof.
assert (Hnil : exists evs : list event,
           Forall call_ok evs /\ trace (wld s) = trace (wld s) ++ evs)
  by (exists []; split; [constructor | now rewrite app_nil_r]).
rewrite step_eq. destruct (reader s) as [|b0 [|b1 rest]]; try exact Hnil.
cbv zeta. pose proof (lengthField_range b0 b1) as Hrange.
destruct (Z.ltb_spec (lengthField b0 b1) 0); [exact Hnil|].
destruct (Z.eqb_spec (lengthField b0 b1) 0).
{ apply decodeAndAppend_calls. congruence. }
destruct rest as [|r0 rest0]; [exact Hnil|].
destruct (Z.ltb_spec (Z.of_nat (length (r0 :: rest0))) (lengthField b0 b1));
  [exact Hnil|].
apply decodeAndAppend_calls. intros _.
rewrite firstn_length_le by lia. split; lia.
Qed.

Lemma loop_calls (fuel : nat) (h : Z) (s : lstate L)
  (r : outcome (list byte)) (w' : world L) :
loop dll fuel h s = Some (r, w') ->
exists evs, Forall call_ok evs /\ trace w' = trace (wld s) ++ evs.
Proof.
revert s. induction fuel as [|fuel IH]; intros s; [discriminate|].
cbn [loop]. destruct (step_calls h s) as (evs & Hok & Ht).
destruct (step dll h s) as [s1|[r1 w1]].
- intros H. apply IH in H. destruct H as (evs' & Hok' & Ht').
  exists (evs ++ evs'). split; [now apply Forall_app|].
  now rewrite Ht', Ht, app_assoc.
- intros [= <- <-]. now exists evs.
Qed.

Lemma Decode_calls_erased (src : Reader) (w : world L) (r : outcome (list byte))
  (w' : world L) :
Decode dll src (erase w) = Some (r, w') -> Forall call_ok (trace w').
Proof.
unfold Decode. destruct (checkHeader src) as [[e|] rd].
{ intros [= <- <-]. constructor. }
unfold andThen, createDecoder.
destruct (FindProc dll "CreateDecoder").
{ intros [= <- <-]. constructor. }
destruct (Call_CreateDecoder dll (lib (erase w))) as [[h [e|]] l1].
{ intros [= <- <-]. repeat constructor. }
unfold setSampleRate. destruct (FindProc dll "setSampleRate").
{ intros [= <- <-]. repeat constructor. }
destruct (Call_setSampleRate dll h 16000 _) as [[e|] l2].
{ intros [= <- <-]. repeat constructor. }
unfold setFramesPerPacket. destruct (FindProc dll "setFramesPerPacket").
{ intros [= <- <-]. repeat constructor. }
destruct (Call_setFramesPerPacket dll h 1 _) as [[e|] l3].
{ intros [= <- <-]. repeat constructor. }
intros H. apply loop_calls in H. destruct H as (evs & Hok & Ht).
rewrite Ht. apply Forall_app. split; [|exact Hok]. repeat constructor.
Qed.

End Calls.

(** X17: whatever the stream and however the run ends, every call of the
    library's [Decode] made by [Decode] hands it a slice that is not empty,
    has at most 32767 bytes, and comes with its exact length. *)
Theorem library_calls_well_formed (L : Type) (dll : Dll L) (src : Reader)
    (w w' : world L) (r : outcome (list byte)) :
  Decode dll src w = Some (r, w') ->
  exists evs, trace w' = trace w ++ evs /\ Forall call_ok evs.
Proof.
  rewrite Decode_write_only.
  destruct (Decode dll src (erase w)) as [[r1 w1]|] eqn:E; [|discriminate].
  cbn [after_run]. intros [= <- <-].
  exists (trace w1). split; [reflexivity|].
  now apply Decode_calls_erased in E.
Qed.

Lemma library_calls_well_formed_witness :
  exists evs,
    [CallCreateDecoder 7; CallSetSampleRate 7 16000; CallSetFramesPerPacket 7 1;
     CallDecode 7 [Byte.x01; Byte.x02; Byte.x03; Byte.x04] 4] = [] ++ evs /\
    Forall call_ok evs.
Proof.
  exact (library_calls_well_formed unit (stubDll 10) (HeaderBytes ++ block4 ++ footer)
           w0
           {| lib := tt;
              trace := [CallCreateDecoder 7; CallSetSampleRate 7 16000;
                        CallSetFramesPerPacket 7 1;
                        CallDecode 7 [Byte.x01; Byte.x02; Byte.x03; Byte.x04] 4] |}
           (Ok (repeat Byte.xab 20)) eq_refl).
Defined.

(** ** Failures inside the loop *)

(** X18: a stream that ends one byte into a length field makes [Decode]
    fail with "failed to read block size" (cause: unexpected end of file);
    the samples accumulated so far are not returned. *)
Theorem truncated_length_field (L : Type) (dll : Dll L) (src : Reader)
    (w : world L) (h : Z) (s : lstate L) (b : byte) :
  during dll src w h s ->
  reader s = [b] ->
  Decode dll src w = Some (Err (ErrReadBlockSize ErrUnexpectedEOF), wld s).
Proof.
  intros Hd Hr. apply (during_Decode dll src w h s); [exact Hd|].
  rewrite step_eq, Hr. reflexivity.
Qed.

Lemma truncated_length_field_witness :
  Decode (stubDll 10) (HeaderBytes ++ block4 ++ [Byte.x05]) w0
  = Some (Err (ErrReadBlockSize ErrUnexpectedEOF),
          {| lib := tt;
             trace := [CallCreateDecoder 7; CallSetSampleRate 7 16000;
                       CallSetFramesPerPacket 7 1;
                       CallDecode 7 [Byte.x01; Byte.x02; Byte.x03; Byte.x04] 4] |}).
Proof.
  refine (truncated_length_field unit (stubDll 10)
    (HeaderBytes ++ block4 ++ [Byte.x05]) w0 7
    {| reader := [Byte.x05];
       inb := [Byte.x01; Byte.x02; Byte.x03; Byte.x04] ++ repeat Byte.x00 1020;
       buf := repeat Byte.xab 20 ++ repeat Byte.x00 3820;
       out := repeat Byte.xab 20;
       wld := {| lib := tt;
                 trace := [CallCreateDecoder 7; CallSetSampleRate 7 16000;
                           CallSetFramesPerPacket 7 1;
                           CallDecode 7 [Byte.x01; Byte.x02; Byte.x03; Byte.x04] 4] |} |}
    Byte.x05 _ _).
  - do 4 eexists. exists tt, tt.
    repeat (split; [reflexivity|]).
    eapply reach_pass; [vm_compute; reflexivity | apply reach_here].
  - reflexivity.
Defined.

(** X19: when the library's [Decode] fails on a block, [Decode] returns
    that error unchanged, after exactly that one further call; the samples
    of the blocks before it are not returned. *)
Theorem library_error_propagated (L : Type) (dll : Dll L) (src : Reader)
    (w : world L) (h : Z) (s : lstate L) (p rest : list byte) (d : dllerr) :
  during dll src w h s ->
  reader s = frameBlock p ++ rest ->
  payload_ok p ->
  FindProc dll "Decode" = None ->
  let n := Z.of_nat (length p) in
  let call := Call_Decode dll h p n (buf s) n (lib (wld s)) in
  snd (fst call) = Some d ->
  Decode dll src w
    = Some (Err (ErrDll d), called (wld s) (snd call) (CallDecode h p n)).
Proof.
  intros Hd Hr [Hne Hlen] Hfind n call Herr. subst call n.
  pose proof (during_buf_length dll src w h s Hd) as Hbuf.
  assert (Hpos : 0 < Z.of_nat (length p)) by (destruct p; [congruence | cbn; lia]).
  apply (during_Decode dll src w h s); [exact Hd|].
  unfold frameBlock in Hr. rewrite !le_split_S in Hr.
  change (le_split 0 _) with (@nil byte) in Hr. cbn [app] in Hr.
  rewrite step_eq, Hr. cbv zeta. rewrite lengthField_of_int16 by lia.
  destruct (Z.ltb_spec (Z.of_nat (length p)) 0); [lia|].
  destruct (Z.eqb_spec (Z.of_nat (length p)) 0); [lia|].
  destruct (p ++ rest) as [|x xs] eqn:Ex; [destruct p; [congruence | discriminate]|].
  rewrite <- Ex.
  destruct (Z.ltb_spec (Z.of_nat (length (p ++ rest))) (Z.of_nat (length p)))
    as [Hlt|_]; [rewrite length_app in Hlt; lia|].
  rewrite Nat2Z.id, firstn_app_len, skipn_app_len.
  unfold decodeAndAppend, decode. rewrite Hfind.
  destruct p as [|p0 p']; [congruence|].
  destruct (buf s) as [|o0 os] eqn:Eb; [discriminate|].
  destruct (Call_Decode dll h (p0 :: p') (Z.of_nat (length (p0 :: p'))) (o0 :: os)
              (Z.of_nat (length (p0 :: p'))) (lib (wld s)))
    as [[[written count] err] l].
  cbn [fst snd] in *. subst err. reflexivity.
Qed.

Lemma library_error_propagated_witness :
  Decode (failingDll 5) (HeaderBytes ++ frameBlock [Byte.x01; Byte.x02] ++ footer) w0
  = Some (Err (ErrDll (DllErr 5)),
          {| lib := tt;
             trace := [CallCreateDecoder 7; CallSetSampleRate 7 16000;
                       CallSetFramesPerPacket 7 1;
                       CallDecode 7 [Byte.x01; Byte.x02] 2] |}).
Proof.
  refine (library_error_propagated unit (failingDll 5)
    (HeaderBytes ++ frameBlock [Byte.x01; Byte.x02] ++ footer) w0 7
    (entry (frameBlock [Byte.x01; Byte.x02] ++ footer)
       {| lib := tt;
          trace := [CallCreateDecoder 7; CallSetSampleRate 7 16000;
                    CallSetFramesPerPacket 7 1] |})
    [Byte.x01; Byte.x02] footer (DllErr 5) _ _ _ _ _).
  - do 4 eexists. exists tt, tt.
    repeat (split; [reflexivity|]). apply reach_here.
  - reflexivity.
  - split; [discriminate | cbn; lia].
  - reflexivity.
  - reflexivity.
Defined.
